(** * Scrabble.py: move generation and scoring

    A shallow embedding of [src/src/Scrabble.py] (the Python 2 program of the
    repository: [map] and [zip] return lists there) and the properties of
    it that the specification states.

    Conventions of the embedding.
    - A Python [str] is a [list ascii]; a one-character string is an [ascii].
    - A Python [set] is a [gset]: membership is all the program observes of
      a set, except for the order of iteration, which Python leaves
      unspecified and which is [elements] here.
    - A list that the program updates in place is a value that is passed on;
      the functions that mutate the board return the board they leave.
    - A function that can raise returns a [res]; the store left behind by an
      exception is not described, except for [make_play].
    - Indices are natural numbers, as [enumerate] produces them, where the
      program computes none below [-1]; [k - 1] at [k = 0] reads the last
      element ([get_pred]).  The [start] of [legal_prefix] is counted down
      by a loop and can get below [0]: it is an integer, and [get_z] and
      [slice_z] index with it as Python does, from the end of the list.
    - A name is what the module binds to it once it is loaded.  The module
      has two [def add_suffixes]; the later one, of three parameters,
      is the function that every call of [add_suffixes] reaches. *)

From Stdlib Require Import Ascii.
From Stdlib Require String.
From stdpp Require Import gmap list strings.

Set Default Proof Using "Type".
#[local] Set Warnings "-clear-no-such-hyp".
Open Scope list_scope.

(* ================================================================= *)
(** ** Python values and exceptions *)

Abbreviation str := (list ascii).

(** The string literal ["CAB"] as a [str]. *)
Definition s (x : string) : str := String.list_ascii_of_string x.

Inductive exn :=
  | IndexError | KeyError | TypeError | AttributeError | NameError
  | RecursionError.

Inductive res (A : Type) :=
  | Ok (a : A)
  | Raise (e : exn).
Arguments Ok {A} a.
Arguments Raise {A} e.

(** [x ← m; k] runs [m] and, unless it raised, [k] on its value. *)
#[global] Instance res_bind : MBind res := λ A B k m,
  match m with
  | Ok a => k a
  | Raise e => Raise e
  end.

(** A [for] loop whose body can raise: the accumulator is the state that
    the body updates. *)
Fixpoint for_each {A B} (l : list A) (body : B → A → res B) (acc : B) : res B :=
  match l with
  | [] => Ok acc
  | x :: l' => acc' ← body acc x; for_each l' body acc'
  end.

(** [l[k]] for [0 <= k]. *)
Definition get {A} (l : list A) (k : nat) : res A :=
  match l !! k with
  | Some x => Ok x
  | None => Raise IndexError
  end.

(** [l[k - 1]] for [0 <= k]: at [k = 0] Python reads [l[-1]], the last
    element. *)
Definition get_pred {A} (l : list A) (k : nat) : res A :=
  match k with
  | 0 => match last l with Some x => Ok x | None => Raise IndexError end
  | S k' => get l k'
  end.

(** [l[k]] for an integer [k]: below [0] the index counts from the end of
    the list, and below [-len(l)] there is no such element. *)
Definition get_z {A} (l : list A) (k : Z) : res A :=
  if decide (0 ≤ k)%Z then get l (Z.to_nat k)
  else if decide (- Z.of_nat (length l) ≤ k)%Z then get l (Z.to_nat (Z.of_nat (length l) + k))
  else Raise IndexError.

(** [l[lo:hi]] for an integer [lo] and [0 <= hi]: [lo] below [0] counts
    from the end of the list and stops at its first element; a slice
    raises nothing. *)
Definition slice_z {A} (l : list A) (lo : Z) (hi : nat) : list A :=
  let lo := if decide (0 ≤ lo)%Z then lo else Z.max 0 (Z.of_nat (length l) + lo) in
  drop (Z.to_nat lo) (take hi l).

(** [m[j][i]]. *)
Definition get2 {A} (m : list (list A)) (j i : nat) : res A :=
  row ← get m j; get row i.

(** [m[j][i]], when there is such an entry. *)
Definition entry {A} (m : list (list A)) (j i : nat) : option A :=
  m !! j ≫= (.!! i).

(** [l[1:-1]]. *)
Definition inner {A} (l : list A) : list A := removelast (tail l).

(** [enumerate(l, start)]. *)
Fixpoint enumerate {A} (l : list A) (start : nat) : list (nat * A) :=
  match l with
  | [] => []
  | x :: l' => (start, x) :: enumerate l' (S start)
  end.

(** [hand.replace(L, '', 1)]: the first occurrence of [L] is removed. *)
Fixpoint remove_first (L : ascii) (hand : str) : str :=
  match hand with
  | [] => []
  | c :: h => if Ascii.eqb c L then h else c :: remove_first L h
  end.

(** [w.replace('.', L)]: every ['.'] becomes [L]. *)
Definition replace_dot (L : ascii) (w : str) : str :=
  map (fun c => if Ascii.eqb c "."%char then L else c) w.

(** [text.upper()] on a byte string. *)
Definition upper_char (c : ascii) : ascii :=
  let n := nat_of_ascii c in
  if (97 <=? n) && (n <=? 122) then ascii_of_nat (n - 32) else c.

Definition upper (text : str) : str := map upper_char text.

(** [text.split()]: the tokens between runs of white space. *)
Definition is_space (c : ascii) : bool :=
  let n := nat_of_ascii c in
  (n =? 32) || ((9 <=? n) && (n <=? 13)).

Fixpoint split_from (text tok : str) : list str :=
  match text with
  | [] => match tok with [] => [] | _ => [tok] end
  | c :: text' =>
      if is_space c
      then match tok with
           | [] => split_from text' []
           | _ => tok :: split_from text' []
           end
      else split_from text' (tok ++ [c])
  end.

Definition split (text : str) : list str := split_from text [].

(* ================================================================= *)
(** ** Squares, letters, points, bonus squares *)

(** What a square of the board holds: a one-character string (['|'] on the
    border, ['.'] and ['*'] on empty squares, a letter), the object [ANY],
    or an [Anchor] made by [set_anchors].  [ANY] is told from the other
    anchors by identity ([sq is not ANY]), so it is a constructor of its
    own. *)
Inductive square :=
  | Str (c : ascii)
  | ANY
  | Anchor (allowed : gset ascii).

#[global] Instance square_eq_dec : EqDecision square.
Proof. solve_decision. Defined.

Abbreviation board_t := (list (list square)).

Definition LETTERS : str := s "ABCDEFGHIJKLMNOPQRSTUVWXYZ".

Definition in_LETTERS (c : ascii) : bool := bool_decide (c ∈ LETTERS).

(** [L in sq] for a square that is a set. *)
Definition allows (sq : square) (L : ascii) : bool :=
  match sq with
  | Str _ => false
  | ANY => in_LETTERS L
  | Anchor a => bool_decide (L ∈ a)
  end.

Definition POINTS : gmap ascii nat :=
  list_to_map
    [("A", 1); ("B", 3); ("C", 3); ("D", 2); ("E", 1); ("F", 4); ("G", 2);
     ("H", 4); ("I", 1); ("J", 8); ("K", 5); ("L", 1); ("M", 3); ("N", 1);
     ("O", 1); ("P", 3); ("Q", 10); ("R", 1); ("S", 1); ("T", 1); ("U", 1);
     ("V", 4); ("W", 4); ("X", 8); ("Y", 4); ("Z", 10); ("_", 0)]%char.

(** [ACROSS, DOWN = (1, 0), (0, 1)].  The program compares a direction with
    [DOWN] by identity; the directions it passes are these two objects, for
    which identity is equality. *)
Definition direction := (nat * nat)%type.
Definition ACROSS : direction := (1, 0).
Definition DOWN : direction := (0, 1).

Definition dir_eqb (d e : direction) : bool := bool_decide (d = e).

Definition mirror {A} (sequence : list A) : list A :=
  sequence ++ rev (removelast sequence).

Definition bonus_template (quadrant : str) : list str :=
  mirror (map mirror (split quadrant)).

Definition WWF : list str := bonus_template (s "
|||||||||
|...3..;.
|..:..2..
|.:..:...
|3..;...2
|..:...:.
|.2...3..
|;...:...
|...:...*
").

Definition SCRABBLE : list str := bonus_template (s "
|||||||||
|3..:...3
|.2...;..
|..2...:.
|:..2...:
|....2...
|.;...;..
|..:...:.
|3..:...*
").

Definition BONUS : list str := WWF.

Definition DW : ascii := "2".
Definition TW : ascii := "3".
Definition DL : ascii := ":".
Definition TL : ascii := ";".

Definition is_letter (sq : square) : bool :=
  match sq with
  | Str c => in_LETTERS c
  | _ => false
  end.

Definition is_set (sq : square) : bool :=
  match sq with
  | Str _ => false
  | _ => true
  end.

Definition is_empty (sq : square) : bool :=
  bool_decide (sq = Str ".") || bool_decide (sq = Str "*") || is_set sq.

(* ================================================================= *)
(** ** The dictionary *)

(** A string of letters only. *)
Definition alphabetic (w : str) : Prop := Forall (fun c => c ∈ LETTERS) w.

(** [prefixes(word)]: [word[:i]] for [i] in [range(len(word))]. *)
Definition prefixes (word : str) : list str :=
  map (fun i => take i word) (seq 0 (length word)).

(** [readwordlist], on the contents of the file. *)
Definition readwordlist (text : str) : gset str * gset str :=
  let words := split (upper text) in
  foldl (fun '(wordset, prefixset) word =>
           ({[ word ]} ∪ wordset, list_to_set (prefixes word) ∪ prefixset))
        (∅, ∅) words.

(* ================================================================= *)
(** ** Plays and the board *)

(** A play is the tuple [(score, (i, j), (di, dj), word)]. *)
Definition play := (nat * (nat * nat) * direction * str)%type.

Definition play_score (p : play) : nat := p.1.1.1.
Definition play_pos (p : play) : nat * nat := p.1.1.2.
Definition play_dir (p : play) : direction := p.1.2.
Definition play_word (p : play) : str := p.2.

(** [board[j][i] = sq]. *)
Definition board_set (board : board_t) (j i : nat) (sq : square) : res board_t :=
  row ← get board j;
  if decide (i < length row)
  then Ok (<[j := <[i := sq]> row]> board)
  else Raise IndexError.

(** The loop of [make_play]; the board it leaves, and the exception if one
    was raised on the way. *)
Fixpoint make_play_loop (word : str) (i j di dj : nat) (board : board_t)
  : board_t * option exn :=
  match word with
  | [] => (board, None)
  | letter :: word' =>
      match board_set board j i (Str letter) with
      | Ok board' => make_play_loop word' (i + di) (j + dj) di dj board'
      | Raise e => (board, Some e)
      end
  end.

Definition make_play (p : play) (board : board_t) : board_t * option exn :=
  let '(score, (i, j), (di, dj), word) := p in
  make_play_loop word i j di dj board.



(* ================================================================= *)
(** ** The search *)





(** [HAND_PREFIXES_CACHE]: a dictionary from a hand to what
    [find_prefixes] returned for it, which can be [None]. *)
Abbreviation cache_t := (gmap str (option (gset str))).

Section Engine.

(** The contents of [words4k.txt], which is not in the repository. *)
Variable words4k : str.

Definition WORDS : gset str := (readwordlist words4k).1.
Definition PREFIXES : gset str := (readwordlist words4k).2.

Definition in_WORDS (w : str) : bool := bool_decide (w ∈ WORDS).
Definition in_PREFIXES (w : str) : bool := bool_decide (w ∈ PREFIXES).

(** [neighbors(board, i, j)], in the order N, S, E, W. *)
Definition neighbors (board : board_t) (i j : nat) : res (list square) :=
  rowN ← get_pred board j; N ← get rowN i;
  rowS ← get board (j + 1); S ← get rowS i;
  row ← get board j; E ← get row (i + 1);
  W ← get_pred row i;
  Ok [N; S; E; W].

(** The first loop of [find_cross_word]: [j2] runs over
    [range(j, 0, -1)]; the value that [j2] has when the loop is left is
    returned with the word. When [j = 0] the loop binds no value to
    [j2]. *)
Fixpoint cross_up (board : board_t) (i j2 : nat) (w : str) : res (option nat * str) :=
  match j2 with
  | 0 => Ok (None, w)
  | S k =>
      sq2 ← get2 board k i;
      if is_letter sq2
      then match sq2, k with
           | Str c, S _ => cross_up board i k (c :: w)
           | Str c, 0 => Ok (Some 1, c :: w)
           | _, _ => Ok (Some (S k), w)
           end
      else Ok (Some (S k), w)
  end.

(** The second loop: [rows] are the rows [j + 1] to the last. *)
Fixpoint cross_down (rows : board_t) (i : nat) (w : str) : res str :=
  match rows with
  | [] => Ok w
  | row :: rows' =>
      sq3 ← get row i;
      match sq3 with
      | Str c => if is_letter sq3 then cross_down rows' i (w ++ [c]) else Ok w
      | _ => Ok w
      end
  end.

Definition find_cross_word (board : board_t) (i j : nat) : res (nat * str) :=
  sq ← get2 board j i;
  let w := match sq with
           | Str c => if is_letter sq then [c] else s "."
           | _ => s "."
           end in
  '(j2, w) ← cross_up board i j w;
  w ← cross_down (drop (j + 1) board) i w;
  match j2 with
  | Some j2 => Ok (j2, w)
  | None => Raise NameError
  end.

(** [Anchor(L for L in LETTERS if w.replace('.', L) in WORDS)]. *)
Definition cross_anchor (w : str) : square :=
  Anchor (list_to_set (filter (fun L => in_WORDS (replace_dot L w) = true) LETTERS)).

(** The body of the loop of [set_anchors]. [row] is the object
    [board[j]], so [row[i] = x] is [board[j][i] = x]; [sq] comes from the
    copy [row[1:-1]] made when the loop starts. *)
Definition set_anchor (j : nat) (board : board_t) (isq : nat * square) : res board_t :=
  let '(i, sq) := isq in
  neighbor_list ← neighbors board i j;
  if bool_decide (sq = Str "*")
     || (is_empty sq && existsb is_letter neighbor_list)
  then
    if existsb is_letter (take 2 neighbor_list)
    then '(j2, w) ← find_cross_word board i j;
         board_set board j i (cross_anchor w)
    else board_set board j i ANY
  else Ok board.

Definition set_anchors (j : nat) (board : board_t) : res board_t :=
  row ← get board j;
  for_each (enumerate (inner row) 1) (set_anchor j) board.

(** [while test(row[start - 1]): start -= 1], with [start] at
    [m - len(row)]. Nothing stops the loop at [start = 0]: it goes on with
    [row[-1]], [row[-2]], ... until the test fails or, at
    [start = -len(row)], [row[start - 1]] raises [IndexError], as
    [row[-len(row) - 1]] does for every row. So the loop makes at most [m]
    steps. *)
Fixpoint back_while (test : square → bool) (row : list square) (m : nat) : res Z :=
  let start := (Z.of_nat m - Z.of_nat (length row))%Z in
  match m with
  | 0 => get_z row (start - 1) ≫= λ _, Raise IndexError
  | S m' =>
      sq ← get_z row (start - 1);
      if test sq then back_while test row m' else Ok start
  end.

(** [''.join(squares)]: every item has to be a string. *)
Definition join (squares : list square) : res str :=
  for_each squares
    (fun acc sq => match sq with Str c => Ok (acc ++ [c]) | _ => Raise TypeError end) [].

(** [legal_prefix(i, row)]: [start] is an integer, [row[start: i]] a
    slice. *)
Definition legal_prefix (i : nat) (row : list square) : res (str * Z) :=
  start ← back_while is_letter row (i + length row);
  if decide (start < Z.of_nat i)%Z
  then pre ← join (slice_z row start i); Ok (pre, (Z.of_nat i - start)%Z)
  else start ← back_while (fun sq => is_empty sq && negb (is_set sq)) row
                 (Z.to_nat (start + Z.of_nat (length row)));
       Ok ([], (Z.of_nat i - start)%Z).

(** A call [add_suffixes(hand, pre, start, row, results, anchored=False)],
    as [row_plays] makes it at lines 266 and 272. The function of these six
    parameters is the [def] of lines 302-316; the module goes on to the
    [def add_suffixes(hand, prefix, results)] of lines 377-385, which takes
    the name, so that is the function called here ([add_suffixes'] in
    [Anagrams] below, which [word_plays] calls with three arguments). It is
    given five positional arguments and a keyword that it does not have:
    the call raises [TypeError] when the arguments are bound, and no body
    runs. The arguments are evaluated before that, and evaluating them
    raises nothing. *)
Definition add_suffixes_six (hand pre : str) (start : Z) (row : list square)
    (results : gset (nat * str)) (anchored : bool) : res (gset (nat * str)) :=
  Raise TypeError.

(** [removed(letters, remove)]. *)
Definition removed (letters remove : str) : str :=
  foldl (fun letters L => remove_first L letters) letters remove.

(** The calls that [find_prefixes] makes to itself, and the body of the
    first call. They come after [results.add(prefix)] has returned, so
    [results] is a set in them, the one set that all the calls add to;
    their [prefix] ends with a letter, so neither test on [prefix == '']
    holds in them. [hand] loses a letter at every call, so [depth] is never
    used up when it starts at [len(hand)]. *)
Fixpoint find_prefixes_from (depth : nat) (hand prefix : str)
    (results : gset str) : res (gset str) :=
  if in_PREFIXES prefix
  then for_each hand
         (fun results L =>
            match depth with
            | 0 => Raise RecursionError
            | S depth' =>
                find_prefixes_from depth' (remove_first L hand) (prefix ++ [L]) results
            end)
         ({[ prefix ]} ∪ results)
  else Ok results.

(** [find_prefixes(hand, prefix, results)]: what it returns, and the
    cache it leaves. [results] is [None], the default, or a set;
    [None.add] raises. *)
Definition find_prefixes (hand prefix : str) (results : option (gset str))
    (cache : cache_t) : res (option (gset str)) * cache_t :=
  match prefix, cache !! hand with
  | [], Some cached => (Ok cached, cache)
  | _, _ =>
      let returned :=
        match results with
        | None => if in_PREFIXES prefix then Raise AttributeError else Ok None
        | Some r => r ← find_prefixes_from (length hand) hand prefix r; Ok (Some r)
        end in
      match returned with
      | Ok results =>
          (Ok results, match prefix with [] => {[ hand := results ]} | _ => cache end)
      | Raise e => (Raise e, cache)
      end
  end.

(** The body of the loop of [row_plays]. [find_prefixes(hand)] is called
    with [results=None]; what it returns is iterated over, which raises
    for [None]. [results] is the set that [row_plays] makes, empty, for
    the pairs [(i, word)] that [horizontal_plays] reads from it; the calls
    of [add_suffixes] are the only code that is given it. *)
Definition row_play (hand : str) (row : list square) (cache : cache_t)
    (results : gset (nat * str)) (isq : nat * square) : res (gset (nat * str)) :=
  let '(i, square) := isq in
  if is_set square
  then
    '(prefix, max_size) ← legal_prefix i row;
    match prefix with
    | _ :: _ =>
        add_suffixes_six hand prefix
          (Z.of_nat i - Z.of_nat (length prefix)) row results false
    | [] =>
        found ← (find_prefixes hand [] None cache).1;
        match found with
        | None => Raise TypeError
        | Some found =>
            for_each (elements found)
              (fun results prefix =>
                 if decide (Z.of_nat (length prefix) ≤ max_size)%Z
                 then add_suffixes_six (removed hand prefix) prefix
                        (Z.of_nat i - Z.of_nat (length prefix)) row results false
                 else Ok results) results
        end
    end
  else Ok results.

Definition row_plays (hand : str) (row : list square) (cache : cache_t)
  : res (gset (nat * str)) :=
  for_each (enumerate (inner row) 1) (row_play hand row cache) ∅.

(** [calculate_score] and [cross_word_score] call each other; the call
    from [cross_word_score] passes [DOWN], for which [calculate_score]
    calls nothing. [score_with cross] is [calculate_score] with [cross]
    for [cross_word_score]. *)
Definition word_bonus (sq : square) (b : ascii) : nat :=
  if is_letter sq then 1
  else if bool_decide (b = TW) then 3
  else if bool_decide (b = DW) || bool_decide (b = "*"%char) then 2
  else 1.

Definition letter_bonus (sq : square) (b : ascii) : nat :=
  if is_letter sq then 1
  else if bool_decide (b = TL) then 3
  else if bool_decide (b = DL) then 2
  else 1.

Fixpoint score_loop
    (cross : board_t → ascii → nat * nat → direction → res nat)
    (board : board_t) (pos : nat * nat) (direction : direction)
    (word : str) (n total cross_total word_multiplier : nat) : res nat :=
  match word with
  | [] => Ok (cross_total + word_multiplier * total)
  | L :: word' =>
      let '(starti, startj) := pos in
      let '(di, dj) := direction in
      let other_direction := if dir_eqb direction ACROSS then DOWN else ACROSS in
      let i := starti + n * di in
      let j := startj + n * dj in
      sq ← get2 board j i;
      b ← get2 BONUS j i;
      let word_multiplier := word_multiplier * word_bonus sq b in
      let letter_mult := letter_bonus sq b in
      points ← match POINTS !! L with Some p => Ok p | None => Raise KeyError end;
      let total := total + points * letter_mult in
      cross_total ←
        (if is_set sq && negb (bool_decide (sq = ANY)) && negb (dir_eqb direction DOWN)
         then c ← cross board L (i, j) other_direction; Ok (cross_total + c)
         else Ok cross_total);
      score_loop cross board pos direction word' (S n) total cross_total word_multiplier
  end.

Definition score_with cross (board : board_t) (pos : nat * nat)
    (direction : direction) (hand word : str) : res nat :=
  score_loop cross board pos direction word 0 0 0 1.

Definition cross_word_score (board : board_t) (L : ascii) (pos : nat * nat)
    (direction : direction) : res nat :=
  let '(i, j) := pos in
  '(j2, word) ← find_cross_word board i j;
  score_with (fun _ _ _ _ => Raise RecursionError)
    board (i, j2) DOWN [L] (replace_dot L word).

Definition calculate_score (board : board_t) (pos : nat * nat)
    (direction : direction) (hand word : str) : res nat :=
  score_with cross_word_score board pos direction hand word.





End Engine.

(* ================================================================= *)
(** ** Words from a hand, without the board *)

(** [sorted(l, key=key, reverse=True)]: the keys are computed first, one
    for each item in turn; the sort is stable, so items with the same key
    stay in the order in which they come. *)
Fixpoint insert_desc {A} (kx : nat * A) (l : list (nat * A)) : list (nat * A) :=
  match l with
  | [] => [kx]
  | ky :: l' => if kx.1 <? ky.1 then ky :: insert_desc kx l' else kx :: l
  end.

Definition sorted_reverse {A} (key : A → res nat) (l : list A) : res (list A) :=
  keyed ← for_each l (fun keyed x => k ← key x; Ok (keyed ++ [(k, x)])) [];
  Ok (map snd (foldr insert_desc [] keyed)).

(** [word_score(word)]. *)
Definition word_score (word : str) : res nat :=
  for_each word
    (fun total letter =>
       match POINTS !! letter with
       | Some points => Ok (total + points)
       | None => Raise KeyError
       end) 0.

Section Anagrams.

(** The contents of [words4k.txt]. *)
Variable words4k : str.

(** [find_words(letters, prefix, results)] once [results] is a set: the
    set as the call leaves it. What the calls that [find_words] makes to
    itself return is dropped. [letters] loses a letter at every call, so
    [depth] is never used up when it starts at [len(letters)]. *)
Fixpoint find_words_from (depth : nat) (letters prefix : str)
    (results : gset str) : res (gset str) :=
  let results :=
    if in_WORDS words4k prefix then {[ prefix ]} ∪ results else results in
  if in_PREFIXES words4k prefix
  then for_each letters
         (fun results L =>
            match depth with
            | 0 => Raise RecursionError
            | S depth' =>
                find_words_from depth' (remove_first L letters) (prefix ++ [L]) results
            end) results
  else Ok results.

(** What [find_words] returns: nothing, that is [None], for a [prefix]
    that is not in [PREFIXES], and the set otherwise. [results=None], the
    default, stands for a new set. *)
Definition find_words (letters prefix : str) (results : option (gset str))
  : res (option (gset str)) :=
  results ← find_words_from (length letters) letters prefix (default ∅ results);
  Ok (if in_PREFIXES words4k prefix then Some results else None).

(** The second [add_suffixes(hand, prefix, results)], lines 377-385, which
    [word_plays] calls: the set that the call leaves in [results]. What it
    returns is dropped, by itself and by [word_plays]. *)
Fixpoint add_suffixes' (depth : nat) (hand prefix : str)
    (results : gset str) : res (gset str) :=
  let results :=
    if in_WORDS words4k prefix then {[ prefix ]} ∪ results else results in
  if in_PREFIXES words4k prefix
  then for_each hand
         (fun results L =>
            match depth with
            | 0 => Raise RecursionError
            | S depth' =>
                add_suffixes' depth' (remove_first L hand) (prefix ++ [L]) results
            end) results
  else Ok results.

(** [word_plays(hand, board_letters)]: what it returns and the cache that
    its call of [find_prefixes] leaves. The loop over what
    [find_prefixes] returns raises when that is [None]. *)
Definition word_plays (hand board_letters : str) (cache : cache_t)
  : res (gset str) * cache_t :=
  let '(found, cache) := find_prefixes words4k hand [] (Some ∅) cache in
  (found ← found;
   match found with
   | None => Raise TypeError
   | Some found =>
       for_each (elements found)
         (fun results prefix =>
            for_each board_letters
              (fun results L =>
                 add_suffixes' (length hand) (removed hand prefix) (prefix ++ [L]) results)
              results) ∅
   end, cache).

Definition longest_words (hand board_letters : str) (cache : cache_t)
  : res (list str) * cache_t :=
  let '(words, cache) := word_plays hand board_letters cache in
  (words ← words; sorted_reverse (fun w => Ok (length w)) (elements words), cache).

Definition topn (hand board_letters : str) (n : nat) (cache : cache_t)
  : res (list str) * cache_t :=
  let '(words, cache) := word_plays hand board_letters cache in
  (words ← words; sorted ← sorted_reverse word_score (elements words); Ok (take n sorted),
   cache).

End Anagrams.

(** [show(board)]: the lines that it prints, and the exception if one
    stops it. A square that holds no letter is shown as the entry of
    [BONUS] at its place. *)
Fixpoint join_space (squares : str) : str :=
  match squares with
  | [] => []
  | [c] => [c]
  | c :: squares' => c :: " "%char :: join_space squares'
  end.

Definition show_row (row_index : nat) (row : list square) : res str :=
  squares ← for_each (enumerate row 0)
    (fun squares '(col_index, square) =>
       match square with
       | Str c =>
           if is_letter square then Ok (squares ++ [c])
           else b ← get2 BONUS row_index col_index; Ok (squares ++ [b])
       | _ => b ← get2 BONUS row_index col_index; Ok (squares ++ [b])
       end) [];
  Ok (join_space squares).

Fixpoint show_rows (rows : list (nat * list square)) : list str * option exn :=
  match rows with
  | [] => ([], None)
  | (row_index, row) :: rows' =>
      match show_row row_index row with
      | Ok line => let '(lines, e) := show_rows rows' in (line :: lines, e)
      | Raise e => ([], Some e)
      end
  end.

Definition show (board : board_t) : list str * option exn :=
  show_rows (enumerate board 0).

(* ================================================================= *)
(** ** Boards and dictionaries to run the program on *)

(** The board before the first play: the border of the template, ['*'] on
    the start square, ['.'] elsewhere. *)
Definition start_square (b : ascii) : square :=
  if bool_decide (b = "|"%char) || bool_decide (b = "*"%char) then Str b else Str ".".

Definition start_board : board_t := map (map start_square) BONUS.


(** The same board once [set_anchors] has seen its middle row. *)
Definition center_board : board_t :=
  map (map (fun b => if bool_decide (b = "*"%char) then ANY else start_square b)) BONUS.

(** Where a board holds a set, as pairs [(i, j)]. *)
Definition set_squares (board : board_t) : list (nat * nat) :=
  flat_map (fun '(j, row) =>
              flat_map (fun '(i, sq) => if is_set sq then [(i, j)] else [])
                       (enumerate row 0))
           (enumerate board 0).

(** A board written row by row. *)
Definition board_of (rows : list string) : board_t := map (fun row => map Str (s row)) rows.

(** A row of two squares inside the border, with the letter [A] on the
    first of them. *)
Definition board_A : board_t := board_of ["||||"; "|A.|"; "||||"]%string.

(** A board with the letter [A] above an empty row. *)
Definition board_T : board_t := board_of ["|||||"; "|.A.|"; "|...|"; "|||||"]%string.

(* ================================================================= *)
(** ** What the properties are stated with *)

(** What [set_anchors] may do to a square: nothing, or put an empty square
    in the place of an empty square. *)
Definition same_or_anchor (sq sq' : square) : Prop :=
  if is_empty sq then is_empty sq' = true else sq' = sq.

Definition anchors_only (board board' : board_t) : Prop :=
  Forall2 (Forall2 same_or_anchor) board board'.

Definition letter_at (board : board_t) (j i : nat) : bool :=
  match entry board j i with
  | Some sq => is_letter sq
  | None => false
  end.

(** A cache whose sets are those that [find_prefixes(hand, '', set())]
    makes. *)
Definition cache_sound (words4k : str) (cache : cache_t) : Prop :=
  ∀ hand found, cache !! hand = Some (Some found) →
    find_prefixes_from words4k (length hand) hand [] ∅ = Ok found.

(** A row in which the square after a letter, when it is inside the row
    and empty, is an anchor, as [set_anchors] leaves the row. *)
Definition anchored_row (row : list square) : Prop :=
  ∀ k sq sq', row !! k = Some sq → is_letter sq = true →
    row !! S k = Some sq' → S (S k) < length row →
    is_empty sq' = true → is_set sq' = true.

(** The parts of the score of a word. The letter [L] that goes on the
    square [(i, j)] adds [letter_points] to the total of the letters of the
    word, and the square multiplies the total by [word_bonus_at]. *)
Definition letter_points (board : board_t) (i j : nat) (L : ascii) : nat :=
  match entry board j i, entry BONUS j i, POINTS !! L with
  | Some sq, Some b, Some points => points * letter_bonus sq b
  | _, _, _ => 0
  end.

Definition word_bonus_at (board : board_t) (i j : nat) : nat :=
  match entry board j i, entry BONUS j i with
  | Some sq, Some b => word_bonus sq b
  | _, _ => 1
  end.

(** The total of the letters, the multiplier and the total of the cross
    words of a word, from its [n]th letter on; the [n]th letter goes on the
    square [(i + n * di, j + n * dj)]. *)
Fixpoint letters_total (board : board_t) (i j di dj : nat) (word : str) (n : nat) : nat :=
  match word with
  | [] => 0
  | L :: word' =>
      letter_points board (i + n * di) (j + n * dj) L
      + letters_total board i j di dj word' (S n)
  end.

Fixpoint word_multiplier (board : board_t) (i j di dj : nat) (word : str) (n : nat) : nat :=
  match word with
  | [] => 1
  | L :: word' =>
      word_bonus_at board (i + n * di) (j + n * dj)
      * word_multiplier board i j di dj word' (S n)
  end.

Fixpoint crosses_total
    (cross : board_t → ascii → nat * nat → direction → res nat)
    (board : board_t) (i j di dj : nat) (word : str) (n : nat) : res nat :=
  match word with
  | [] => Ok 0
  | L :: word' =>
      c ← match entry board (j + n * dj) (i + n * di) with
          | Some sq =>
              if is_set sq && negb (bool_decide (sq = ANY)) && negb (dir_eqb (di, dj) DOWN)
              then cross board L (i + n * di, j + n * dj)
                     (if dir_eqb (di, dj) ACROSS then DOWN else ACROSS)
              else Ok 0
          | None => Ok 0
          end;
      rest ← crosses_total cross board i j di dj word' (S n);
      Ok (c + rest)
  end.

(** A hand without its wildcards. *)
Definition no_wildcards (hand : str) : str := filter (fun L => L ≠ "_"%char) hand.

(* ================================================================= *)
(** * Properties *)

(** ** The dictionary *)

Lemma elem_of_prefixes (p word : str) :
  p ∈ prefixes word ↔ p `prefix_of` word ∧ p ≠ word.
Proof.
  unfold prefixes. rewrite list_elem_of_fmap. split.
  - intros (i & -> & Hi). apply elem_of_seq in Hi. split.
    + apply prefix_take.
    + intros E. apply (f_equal length) in E. rewrite length_take in E. lia.
  - intros [[k ->] Hne]. exists (length p). split.
    + by rewrite take_app_length.
    + apply elem_of_seq. rewrite length_app. destruct k; [|simpl; lia].
      by rewrite app_nil_r in Hne.
Qed.

Lemma readwordlist_fold (words : list str) (ws ps : gset str) :
  let r := foldl (fun '(wordset, prefixset) word =>
                    ({[ word ]} ∪ wordset, list_to_set (prefixes word) ∪ prefixset))
                 (ws, ps) words in
  (∀ w, w ∈ r.1 ↔ w ∈ ws ∨ w ∈ words) ∧
  (∀ p, p ∈ r.2 ↔ p ∈ ps ∨ ∃ w, w ∈ words ∧ p ∈ prefixes w).
Proof.
  revert ws ps. induction words as [|word words IH]; intros ws ps; simpl.
  - split; intros x; [set_solver|]. split; [auto|]. intros [?|(w & Hw & _)]; [done|].
    by apply elem_of_nil in Hw.
  - destruct (IH ({[ word ]} ∪ ws) (list_to_set (prefixes word) ∪ ps)) as [IH1 IH2].
    split; intros x.
    + rewrite IH1. set_solver.
    + rewrite IH2, elem_of_union, elem_of_list_to_set. split.
      * intros [[?|?]|(w & Hw & Hp)]; eauto.
        -- right. exists word. split; [left|done].
        -- right. exists w. split; [by right|done].
      * intros [?|(w & Hw & Hp)]; [auto|].
        apply elem_of_cons in Hw as [->|Hw]; eauto.
Qed.

Lemma elem_of_wordset (text w : str) :
  w ∈ (readwordlist text).1 ↔ w ∈ split (upper text).
Proof.
  unfold readwordlist.
  destruct (readwordlist_fold (split (upper text)) ∅ ∅) as [H _].
  rewrite H. set_solver.
Qed.

Lemma elem_of_prefixset (text p : str) :
  p ∈ (readwordlist text).2 ↔
  ∃ w, w ∈ split (upper text) ∧ p `prefix_of` w ∧ p ≠ w.
Proof.
  unfold readwordlist.
  destruct (readwordlist_fold (split (upper text)) ∅ ∅) as [_ H].
  rewrite H. setoid_rewrite elem_of_prefixes. set_solver.
Qed.

(** C8, as the specification states it, fails: the token [X1Y] of the text
    ["x1y ab"] has a character that is not a letter, and yet it is in the
    word set and its prefix [X1] is in the prefix set. *)
Lemma readwordlist_keeps_malformed_token :
  let text := s "x1y ab" in
  s "X1Y" ∈ split (upper text) ∧ ¬ alphabetic (s "X1Y") ∧
  s "X1Y" ∈ (readwordlist text).1 ∧ s "X1" ∈ (readwordlist text).2.
Proof.
  split_and!.
  - vm_compute. set_solver.
  - intros Ha. apply Forall_cons in Ha as [_ Ha]. apply Forall_cons in Ha as [Ha _].
    vm_compute in Ha. set_solver.
  - apply elem_of_wordset. vm_compute. set_solver.
  - apply elem_of_prefixset. exists (s "X1Y"). split_and!.
    + vm_compute. set_solver.
    + by exists (s "Y").
    + discriminate.
Qed.

(** C8, amended: [readwordlist] checks no token. Every token of the
    upper-cased text, whatever its characters, is a word, and the prefix
    set holds exactly the proper prefixes of the tokens; no token makes
    the construction fail, [readwordlist] being total on every text. *)
Theorem readwordlist_keeps_every_token (text : str) :
  (∀ w, w ∈ (readwordlist text).1 ↔ w ∈ split (upper text)) ∧
  (∀ p, p ∈ (readwordlist text).2 ↔
        ∃ w, w ∈ split (upper text) ∧ p `prefix_of` w ∧ p ≠ w).
Proof. split; intros; [apply elem_of_wordset | apply elem_of_prefixset]. Qed.

(** C9: every proper prefix of a word of the word set, the empty string
    among them and the word itself left out, is in the prefix set. *)
Theorem proper_prefixes_in_prefixset (text w p : str) :
  w ∈ (readwordlist text).1 →
  p `prefix_of` w →
  p ≠ w →
  p ∈ (readwordlist text).2.
Proof.
  intros Hw Hp Hne. apply elem_of_prefixset. exists w.
  by apply elem_of_wordset in Hw.
Qed.

Lemma proper_prefixes_in_prefixset_witness :
  s "CA" ∈ (readwordlist (s "cab")).2 ∧ [] ∈ (readwordlist (s "cab")).2.
Proof.
  split.
  - apply (proper_prefixes_in_prefixset (s "cab") (s "CAB") (s "CA")).
    + vm_compute. set_solver.
    + by exists (s "B").
    + discriminate.
  - apply (proper_prefixes_in_prefixset (s "cab") (s "CAB") []).
    + vm_compute. set_solver.
    + by exists (s "CAB").
    + discriminate.
Defined.

(* ================================================================= *)
(** ** Matrices: [transpose] and writing a square *)










(** ** Results and exceptions *)

Lemma bind_Ok {A B} (m : res A) (k : A → res B) (b : B) :
  m ≫= k = Ok b → ∃ a, m = Ok a ∧ k a = Ok b.
Proof. destruct m as [a|e]; [eauto|discriminate]. Qed.

Lemma Ok_bind {A B} (a : A) (k : A → res B) : Ok a ≫= k = k a.
Proof. done. Qed.

Lemma Raise_bind {A B} (e : exn) (k : A → res B) : Raise e ≫= k = Raise e.
Proof. done. Qed.

Lemma get_Ok {A} (l : list A) (k : nat) (x : A) : get l k = Ok x ↔ l !! k = Some x.
Proof. unfold get. destruct (l !! k); split; congruence. Qed.

Lemma get2_Ok {A} (m : list (list A)) (j i : nat) (x : A) :
  get2 m j i = Ok x ↔ entry m j i = Some x.
Proof.
  unfold get2, entry, get. destruct (m !! j) as [row|]; simpl; [|split; congruence].
  destruct (row !! i); split; congruence.
Qed.

(** Take apart the hypotheses that say that a computation returned. *)
Ltac returned :=
  repeat match goal with
    | H : _ ≫= _ = Ok _ |- _ =>
        let a := fresh "a" in let Ha := fresh "Ha" in
        apply bind_Ok in H as (a & Ha & H)
    | H : Ok _ = Ok _ |- _ => injection H as H
    | H : Raise _ = Ok _ |- _ => discriminate H
    | H : get _ _ = Ok _ |- _ => apply get_Ok in H
    | H : get2 _ _ _ = Ok _ |- _ => apply get2_Ok in H
    end.

(** ** [make_play] *)

Lemma entry_board_set (board board' : board_t) (j i j' i' : nat) (sq : square) :
  board_set board j i sq = Ok board' →
  entry board' j' i' = if decide ((j', i') = (j, i)) then Some sq else entry board j' i'.
Proof.
  unfold board_set. intros H. returned. rename a into row.
  destruct (decide (i < length row)) as [Hi|]; [|discriminate]. returned. subst board'.
  pose proof (lookup_lt_Some _ _ _ Ha) as Hj. unfold entry.
  destruct (decide (j' = j)) as [->|Hj'].
  - rewrite list_lookup_insert_eq by done. simpl.
    destruct (decide (i' = i)) as [->|Hi'].
    + rewrite list_lookup_insert_eq by done. by rewrite decide_True.
    + rewrite list_lookup_insert_ne by done. rewrite Ha. simpl.
      rewrite decide_False; [done|congruence].
  - rewrite list_lookup_insert_ne by done. rewrite decide_False; [done|congruence].
Qed.

Lemma board_set_returns (board : board_t) (j i : nat) (sq : square) :
  is_Some (entry board j i) → ∃ board', board_set board j i sq = Ok board'.
Proof.
  unfold entry, board_set, get. intros [x Hx].
  destruct (board !! j) as [row|]; [|done]. simpl in *.
  apply lookup_lt_Some in Hx. rewrite decide_True by done. eauto.
Qed.

Lemma make_play_loop_frame (word : str) (i j di dj : nat) (board : board_t) (i' j' : nat) :
  (∀ k, k < length word → (i', j') ≠ (i + k * di, j + k * dj)) →
  entry (make_play_loop word i j di dj board).1 j' i' = entry board j' i'.
Proof.
  revert i j board. induction word as [|L word IH]; intros i j board Hoff; [done|].
  simpl. destruct (board_set board j i (Str L)) as [board'|e] eqn:E; [|done].
  rewrite IH.
  - rewrite (entry_board_set _ _ _ _ _ _ _ E). rewrite decide_False; [done|].
    intros [= -> ->]. apply (Hoff 0); [simpl; lia|]. f_equal; lia.
  - intros k Hk [= -> ->]. apply (Hoff (S k)); [simpl; lia|]. f_equal; lia.
Qed.

Lemma make_play_loop_writes (word : str) (i j di dj : nat) (board : board_t) :
  (di, dj) ≠ (0, 0) →
  (∀ k, k < length word → is_Some (entry board (j + k * dj) (i + k * di))) →
  (make_play_loop word i j di dj board).2 = None ∧
  ∀ k L, word !! k = Some L →
    entry (make_play_loop word i j di dj board).1 (j + k * dj) (i + k * di)
    = Some (Str L).
Proof.
  intros Hd. revert i j board.
  induction word as [|L word IH]; intros i j board Hon; [done|]. simpl.
  destruct (board_set_returns board j i (Str L)) as [board' E].
  { specialize (Hon 0). rewrite !Nat.add_0_r in Hon. apply Hon. simpl. lia. }
  rewrite E. destruct (IH (i + di) (j + dj) board') as [IH1 IH2].
  { intros k Hk. rewrite (entry_board_set _ _ _ _ _ _ _ E).
    case_decide; [done|]. specialize (Hon (S k)).
    replace (j + dj + k * dj) with (j + S k * dj) by lia.
    replace (i + di + k * di) with (i + S k * di) by lia.
    apply Hon. simpl. lia. }
  split; [done|]. intros [|k] L' Hk; simpl in Hk.
  - injection Hk as ->. rewrite !Nat.add_0_r. rewrite make_play_loop_frame.
    + rewrite (entry_board_set _ _ _ _ _ _ _ E). by rewrite decide_True.
    + intros k _ [= Hi Hj]. apply Hd. f_equal; nia.
  - specialize (IH2 k L' Hk).
    replace (j + S k * dj) with (j + dj + k * dj) by lia.
    replace (i + S k * di) with (i + di + k * di) by lia. done.
Qed.

(** C5, as the specification states it, fails: the play of ["A"] on a
    square that holds the letter [X] does not fail; it returns, and the
    square holds [A]. *)
Lemma make_play_overwrites_other_letter :
  let board := [[Str "X"]] in
  is_letter (Str "X") = true ∧ Str "X" ≠ Str "A" ∧
  make_play (0, (0, 0), ACROSS, s "A") board = ([[Str "A"]], None).
Proof. split_and!; [done|discriminate|done]. Qed.

(** C5, amended: [make_play] writes the word letter by letter, from the
    position of the play and in steps of its direction, over whatever the
    squares hold, and makes no test of what they hold: when the squares of
    the path are on the board it returns, and then every square of the path
    holds the letter of the word that was put there. *)
Theorem make_play_writes_word (score i j di dj : nat) (word : str) (board : board_t) :
  (di, dj) ≠ (0, 0) →
  (∀ k, k < length word → is_Some (entry board (j + k * dj) (i + k * di))) →
  (make_play (score, (i, j), (di, dj), word) board).2 = None ∧
  ∀ k L, word !! k = Some L →
    entry (make_play (score, (i, j), (di, dj), word) board).1 (j + k * dj) (i + k * di)
    = Some (Str L).
Proof. apply make_play_loop_writes. Qed.

Lemma make_play_writes_word_witness :
  let board := [[Str "X"; Str "."; Str "|"]] in
  (make_play (4, (0, 0), ACROSS, s "AB") board).2 = None ∧
  ∀ k L, s "AB" !! k = Some L →
    entry (make_play (4, (0, 0), ACROSS, s "AB") board).1 (0 + k * 0) (0 + k * 1)
    = Some (Str L).
Proof.
  apply (make_play_writes_word 4 0 0 1 0 (s "AB") [[Str "X"; Str "."; Str "|"]]).
  - discriminate.
  - intros [|[|k]] Hk; simpl in *; [eauto..|lia].
Defined.

(** C10: [make_play] leaves every square that is not on the path of the
    play as it was, whether it returns or raises on the way. *)
Theorem make_play_frame (p : play) (board : board_t) (i j : nat) :
  (∀ k, k < length (play_word p) →
        (i, j) ≠ ((play_pos p).1 + k * (play_dir p).1,
                  (play_pos p).2 + k * (play_dir p).2)) →
  entry (make_play p board).1 j i = entry board j i.
Proof.
  destruct p as [[[score [starti startj]] [di dj]] word]. simpl.
  apply make_play_loop_frame.
Qed.

Lemma make_play_frame_witness :
  let board := [[Str "X"; Str "."; Str "|"]] in
  entry (make_play (4, (0, 0), ACROSS, s "AB") board).1 0 2 = entry board 0 2.
Proof.
  apply (make_play_frame (4, (0, 0), ACROSS, s "AB") [[Str "X"; Str "."; Str "|"]] 2 0).
  intros [|[|k]] Hk; simpl in *; [discriminate..|lia].
Defined.

(** ** The score of a play *)

(** C2: on the board that is empty but for its start square, the one
    anchor, the word ["CAB"] placed across through that square scores
    [(3 + 1 + 3) * 2 = 14] from each of its three positions, for every hand:
    [C], [A] and [B] count 3, 1 and 3, none of the squares doubles or
    triples a letter, and the ['*'] of the start square doubles the word. *)
Theorem cab_across_center_scores_14 (words4k hand : str) :
  set_anchors words4k 8 start_board = Ok center_board ∧
  set_squares center_board = [(8, 8)] ∧
  (POINTS !! "C"%char, POINTS !! "A"%char, POINTS !! "B"%char) = (Some 3, Some 1, Some 3) ∧
  (∀ i, i ∈ [6; 7; 8; 9; 10] →
        ∃ b, entry BONUS 8 i = Some b ∧
             letter_bonus ANY b = 1 ∧ word_bonus ANY b = if decide (i = 8) then 2 else 1) ∧
  (∀ i, i ∈ [6; 7; 8] →
        calculate_score center_board (i, 8) ACROSS hand (s "CAB") = Ok 14 ∧
        calculate_score start_board (i, 8) ACROSS hand (s "CAB") = Ok 14).
Proof.
  split_and!.
  - vm_compute. reflexivity.
  - vm_compute. reflexivity.
  - vm_compute. reflexivity.
  - intros i Hi.
    repeat (apply elem_of_cons in Hi as [->|Hi];
            [eexists; vm_compute; split_and!; reflexivity|]).
    by apply elem_of_nil in Hi.
  - intros i Hi.
    repeat (apply elem_of_cons in Hi as [->|Hi]; [vm_compute; split; reflexivity|]).
    by apply elem_of_nil in Hi.
Qed.

(** ** Transposition *)




(* ================================================================= *)
(** ** Loops, slices and squares *)


Lemma for_each_app {A B} (l1 l2 : list A) (body : B → A → res B) (acc : B) :
  for_each (l1 ++ l2) body acc = (acc' ← for_each l1 body acc; for_each l2 body acc').
Proof.
  revert acc. induction l1 as [|x l1 IH]; intros acc; simpl; [done|].
  destruct (body acc x) as [acc'|e]; simpl; [apply IH|done].
Qed.

Lemma elem_of_enumerate {A} (l : list A) (start i : nat) (x : A) :
  (i, x) ∈ enumerate l start ↔ start ≤ i ∧ l !! (i - start) = Some x.
Proof.
  revert start. induction l as [|y l IH]; intros start; simpl.
  - split; [by intros ?%elem_of_nil|]. by intros [_ ?].
  - rewrite elem_of_cons, IH. split.
    + intros [[= -> ->]|[Hs Hl]].
      * split; [lia|]. by rewrite Nat.sub_diag.
      * split; [lia|]. by replace (i - start) with (S (i - S start)) by lia.
    + intros [Hs Hl]. destruct (decide (i = start)) as [->|Hne].
      * left. rewrite Nat.sub_diag in Hl. simpl in Hl. congruence.
      * right. split; [lia|].
        by replace (i - start) with (S (i - S start)) in Hl by lia.
Qed.

Lemma enumerate_NoDup {A} (l : list A) (start : nat) : NoDup (enumerate l start).*1.
Proof.
  revert start. induction l as [|y l IH]; intros start; simpl; constructor; [|done].
  intros H. apply list_elem_of_fmap in H as ([i x] & Hi & H). simpl in Hi. subst i.
  apply elem_of_enumerate in H. lia.
Qed.

Lemma lookup_inner {A} (l : list A) (k : nat) :
  inner l !! k = if decide (S (S k) < length l) then l !! S k else None.
Proof.
  unfold inner. rewrite removelast_firstn_len.
  destruct (decide (S (S k) < length l)) as [H|H].
  - rewrite lookup_take_lt by (rewrite length_tl; lia). by destruct l.
  - apply lookup_take_ge. rewrite length_tl. lia.
Qed.

Lemma elem_of_enumerate_inner {A} (l : list A) (i : nat) (x : A) :
  (i, x) ∈ enumerate (inner l) 1 ↔ 1 ≤ i ∧ S i < length l ∧ l !! i = Some x.
Proof.
  rewrite elem_of_enumerate, lookup_inner. split.
  - intros [Hi H]. case_decide; [|done].
    replace (S (i - 1)) with i in * by lia. split_and!; [done|lia|done].
  - intros (Hi & Hl & H). split; [done|].
    replace (S (i - 1)) with i by lia. rewrite decide_True by lia. done.
Qed.


Lemma is_letter_not_empty (sq : square) : is_letter sq = true → is_empty sq = false.
Proof.
  destruct sq as [c| |a]; simpl; [|done..]. unfold is_empty. simpl.
  intros H. rewrite orb_false_r. apply orb_false_iff.
  split; apply bool_decide_eq_false; intros [= ->]; by vm_compute in H.
Qed.

Lemma is_set_empty (sq : square) : is_set sq = true → is_empty sq = true.
Proof. unfold is_empty. intros ->. apply orb_true_r. Qed.

Lemma is_set_not_letter (sq : square) : is_set sq = true → is_letter sq = false.
Proof. by destruct sq. Qed.

(** ** What [set_anchors] leaves of a board *)

#[global] Instance same_or_anchor_refl : Reflexive same_or_anchor.
Proof. intros sq. unfold same_or_anchor. by destruct (is_empty sq) eqn:E. Qed.

#[global] Instance same_or_anchor_trans : Transitive same_or_anchor.
Proof.
  intros sq1 sq2 sq3. unfold same_or_anchor. destruct (is_empty sq1) eqn:E1.
  - by intros ->.
  - intros ->. by rewrite E1.
Qed.

Lemma same_or_anchor_letter (sq sq' : square) :
  same_or_anchor sq sq' → is_letter sq' = is_letter sq.
Proof.
  unfold same_or_anchor. destruct (is_empty sq) eqn:E; [|by intros ->].
  intros E'. destruct (is_letter sq) eqn:L.
  - apply is_letter_not_empty in L. congruence.
  - destruct (is_letter sq') eqn:L'; [|done].
    apply is_letter_not_empty in L'. congruence.
Qed.

Lemma same_or_anchor_empty (sq sq' : square) :
  same_or_anchor sq sq' → is_empty sq' = is_empty sq.
Proof. unfold same_or_anchor. destruct (is_empty sq) eqn:E; [done|by intros ->]. Qed.

Lemma same_or_anchor_not_empty (sq sq' : square) :
  same_or_anchor sq sq' → is_empty sq' = false → sq' = sq.
Proof.
  intros H E. pose proof (same_or_anchor_empty _ _ H) as E'.
  unfold same_or_anchor in H. rewrite <- E', E in H. done.
Qed.

#[global] Instance anchors_only_refl : Reflexive anchors_only.
Proof. intros b. unfold anchors_only. reflexivity. Qed.

#[global] Instance anchors_only_trans : Transitive anchors_only.
Proof. intros b1 b2 b3. unfold anchors_only. intros ? ?. by etrans. Qed.

Lemma anchors_only_row (b b' : board_t) (j : nat) (row : list square) :
  anchors_only b b' → b !! j = Some row →
  ∃ row', b' !! j = Some row' ∧ Forall2 same_or_anchor row row'.
Proof. intros H Hr. by eapply Forall2_lookup_l in H. Qed.

Lemma anchors_only_row_r (b b' : board_t) (j : nat) (row' : list square) :
  anchors_only b b' → b' !! j = Some row' →
  ∃ row, b !! j = Some row ∧ Forall2 same_or_anchor row row'.
Proof. intros H Hr. by eapply Forall2_lookup_r in H. Qed.

Lemma anchors_only_entry (b b' : board_t) (j i : nat) (sq : square) :
  anchors_only b b' → entry b j i = Some sq →
  ∃ sq', entry b' j i = Some sq' ∧ same_or_anchor sq sq'.
Proof.
  unfold entry. intros H Hsq. destruct (b !! j) as [row|] eqn:Hr; [|done].
  destruct (anchors_only_row _ _ _ _ H Hr) as (row' & -> & Hrow). simpl in *.
  by eapply Forall2_lookup_l in Hrow.
Qed.

Lemma anchors_only_entry_r (b b' : board_t) (j i : nat) (sq' : square) :
  anchors_only b b' → entry b' j i = Some sq' →
  ∃ sq, entry b j i = Some sq ∧ same_or_anchor sq sq'.
Proof.
  unfold entry. intros H Hsq. destruct (b' !! j) as [row'|] eqn:Hr; [|done].
  destruct (anchors_only_row_r _ _ _ _ H Hr) as (row & -> & Hrow). simpl in *.
  by eapply Forall2_lookup_r in Hrow.
Qed.

Lemma anchors_only_letter_at (b b' : board_t) (j i : nat) :
  anchors_only b b' → letter_at b' j i = letter_at b j i.
Proof.
  intros H. unfold letter_at. destruct (entry b j i) as [sq|] eqn:E.
  - destruct (anchors_only_entry _ _ _ _ _ H E) as (sq' & -> & Hs).
    by apply same_or_anchor_letter.
  - destruct (entry b' j i) as [sq'|] eqn:E'; [|done].
    destruct (anchors_only_entry_r _ _ _ _ _ H E') as (sq & ? & _). congruence.
Qed.

Lemma anchors_only_board_set (b b' : board_t) (j i : nat) (sq new : square) :
  entry b j i = Some sq → same_or_anchor sq new →
  board_set b j i new = Ok b' → anchors_only b b'.
Proof.
  unfold board_set, entry. intros Hsq Hnew H. returned. rename a into row.
  rewrite Ha in Hsq. simpl in Hsq.
  case_decide; [|done]. returned. subst b'.
  apply Forall2_same_length_lookup. split; [by rewrite length_insert|].
  intros j' r r' Hr Hr'. destruct (decide (j' = j)) as [->|Hj].
  - rewrite list_lookup_insert_eq in Hr' by by eapply lookup_lt_Some. simplify_eq.
    apply Forall2_same_length_lookup. split; [by rewrite length_insert|].
    intros i' x y Hx Hy. destruct (decide (i' = i)) as [->|Hi].
    + rewrite list_lookup_insert_eq in Hy by done. by simplify_eq.
    + rewrite list_lookup_insert_ne in Hy by done. simplify_eq. reflexivity.
  - rewrite list_lookup_insert_ne in Hr' by done. simplify_eq.
    apply Forall2_same_length_lookup. split; [done|].
    intros i' x y Hx Hy. simplify_eq. reflexivity.
Qed.

Section Search.

Variable words4k : str.

Lemma neighbors_Ok (b : board_t) (i j : nat) (l : list square) :
  neighbors b i j = Ok l → 1 ≤ j → 1 ≤ i →
  ∃ N S E W, l = [N; S; E; W] ∧
    entry b (j - 1) i = Some N ∧ entry b (j + 1) i = Some S ∧
    entry b j (i + 1) = Some E ∧ entry b j (i - 1) = Some W.
Proof.
  unfold neighbors. intros H Hj Hi. destruct j as [|j]; [lia|]. destruct i as [|i]; [lia|].
  simpl in H. returned. subst l. eexists _, _, _, _. split; [done|].
  unfold entry. replace (S j - 1) with j by lia. replace (S i - 1) with i by lia.
  simpl. rewrite Ha, Ha1, Ha3. simpl. by rewrite Ha0, Ha2, Ha4, Ha5.
Qed.

(** The ways for the body of the loop of [set_anchors] to return. *)
Lemma set_anchor_Ok (j i : nat) (b b' : board_t) (sq : square) :
  set_anchor words4k j b (i, sq) = Ok b' →
  ∃ l, neighbors b i j = Ok l ∧
    if bool_decide (sq = Str "*") || (is_empty sq && existsb is_letter l)
    then if existsb is_letter (take 2 l)
         then ∃ j2 w, find_cross_word b i j = Ok (j2, w) ∧
                      board_set b j i (cross_anchor words4k w) = Ok b'
         else board_set b j i ANY = Ok b'
    else b' = b.
Proof.
  unfold set_anchor. intros H. returned. rename a into l. exists l. split; [done|].
  destruct (bool_decide (sq = Str "*") || (is_empty sq && existsb is_letter l)).
  - destruct (existsb is_letter (take 2 l)); [|done].
    returned. destruct a as [j2 w]. eauto.
  - by returned.
Qed.

Lemma set_anchor_written (j i : nat) (b b' : board_t) (sq : square) :
  set_anchor words4k j b (i, sq) = Ok b' →
  b' = b ∨ ∃ new, board_set b j i new = Ok b' ∧ is_set new = true ∧ is_empty sq = true.
Proof.
  intros H. apply set_anchor_Ok in H as (l & _ & H).
  destruct (bool_decide (sq = Str "*") || (is_empty sq && existsb is_letter l)) eqn:C;
    [|by left].
  right. assert (is_empty sq = true) as He.
  { apply orb_true_iff in C as [C|C].
    - apply bool_decide_eq_true in C. by subst sq.
    - by apply andb_true_iff in C as [? _]. }
  destruct (existsb is_letter (take 2 l)).
  - destruct H as (j2 & w & _ & H). by eexists.
  - by eexists.
Qed.

Lemma set_anchor_anchors_only (j i : nat) (b b' : board_t) (sq : square) :
  entry b j i = Some sq →
  set_anchor words4k j b (i, sq) = Ok b' → anchors_only b b'.
Proof.
  intros Hsq H. apply set_anchor_written in H as [->|(new & H & Hn & He)]; [done|].
  eapply anchors_only_board_set; [done| |done].
  unfold same_or_anchor. rewrite He. by apply is_set_empty.
Qed.

Lemma set_anchor_frame (j i j' i' : nat) (b b' : board_t) (sq : square) :
  set_anchor words4k j b (i, sq) = Ok b' → (j', i') ≠ (j, i) →
  entry b' j' i' = entry b j' i'.
Proof.
  intros H Hne. apply set_anchor_written in H as [->|(new & H & _)]; [done|].
  rewrite (entry_board_set _ _ _ _ _ _ _ H). by rewrite decide_False.
Qed.

(** The loop of [set_anchors]: every square that it visits holds, when it
    is visited, what the copy of the row has for it, and is left as the
    visit leaves it. *)
Lemma set_anchor_loop (j : nat) (l : list (nat * square)) (b b' : board_t) :
  NoDup l.*1 →
  (∀ i sq, (i, sq) ∈ l → entry b j i = Some sq) →
  for_each l (set_anchor words4k j) b = Ok b' →
  anchors_only b b' ∧
  (∀ j' i', j' ≠ j ∨ i' ∉ l.*1 → entry b' j' i' = entry b j' i') ∧
  ∀ i sq, (i, sq) ∈ l →
    ∃ bi bi', anchors_only b bi ∧ entry bi j i = Some sq ∧
              (∀ i', entry bi i' i = entry b i' i) ∧
              set_anchor words4k j bi (i, sq) = Ok bi' ∧
              entry b' j i = entry bi' j i.
Proof.
  revert b. induction l as [|[i sq] l IH]; intros b Hnd Hl H; cbn [for_each] in H.
  - injection H as <-. split_and!; [done|done|]. by intros i sq ?%elem_of_nil.
  - apply bind_Ok in H as (b1 & Ha & H). rewrite fmap_cons in Hnd.
    apply NoDup_cons in Hnd as [Hi Hnd]. change ((i, sq).1) with i in Hi.
    assert (entry b j i = Some sq) as Hsq by (apply Hl; left).
    pose proof (set_anchor_anchors_only _ _ _ _ _ Hsq Ha) as H1.
    destruct (IH b1 Hnd) as (IH1 & IH2 & IH3); [|done|].
    { intros i' sq' Hin. rewrite (set_anchor_frame _ _ _ _ _ _ _ Ha).
      - apply Hl. by right.
      - intros [= ->]. apply Hi. apply list_elem_of_fmap. by exists (i, sq'). }
    split_and!.
    + by etrans.
    + intros j' i' Hne. rewrite IH2.
      * apply (set_anchor_frame _ _ _ _ _ _ _ Ha). intros [= -> ->].
        destruct Hne as [?|Hne]; [done|]. apply Hne. rewrite fmap_cons. left.
      * destruct Hne as [?|Hne]; [by left|]. right. intros ?. apply Hne.
        rewrite fmap_cons. by right.
    + intros i' sq' [[= -> ->]|Hin]%elem_of_cons.
      * exists b, b1. split_and!; [done..|]. apply IH2. by right.
      * destruct (IH3 _ _ Hin) as (bi & bi' & Hb & He & Hc & Hs & Hf).
        exists bi, bi'. split_and!; [by etrans|done| |done..].
        intros j'. rewrite Hc. apply (set_anchor_frame _ _ _ _ _ _ _ Ha).
        intros [= -> ->]. apply Hi. apply list_elem_of_fmap. by exists (i, sq').
Qed.

Lemma set_anchors_anchors_only (j : nat) (b b' : board_t) :
  set_anchors words4k j b = Ok b' → anchors_only b b'.
Proof.
  unfold set_anchors. intros H. returned. rename a into row.
  eapply set_anchor_loop; [apply enumerate_NoDup| |done].
  intros i sq (_ & _ & Hsq)%elem_of_enumerate_inner. unfold entry. by rewrite Ha.
Qed.





End Search.

(** ** The board after the search *)




(* ================================================================= *)
(** ** Cross words and anchors *)

Lemma same_or_anchor_cases (sq sq' : square) :
  same_or_anchor sq sq' →
  (is_letter sq = true ∧ sq' = sq) ∨ (is_letter sq = false ∧ is_letter sq' = false).
Proof.
  intros H. pose proof (same_or_anchor_letter _ _ H) as Hl.
  destruct (is_letter sq) eqn:E; [left|by right]. split; [done|].
  apply same_or_anchor_not_empty; [done|]. by apply is_letter_not_empty.
Qed.

Lemma get_same_or_anchor (row row' : list square) (i : nat) :
  Forall2 same_or_anchor row row' →
  match get row i, get row' i with
  | Ok sq, Ok sq' => same_or_anchor sq sq'
  | Raise e, Raise e' => e = e'
  | _, _ => False
  end.
Proof.
  intros H. unfold get. destruct (row !! i) as [sq|] eqn:E.
  - eapply Forall2_lookup_l in H as (sq' & -> & H); done.
  - destruct (row' !! i) as [sq'|] eqn:E'; [|done].
    eapply Forall2_lookup_r in H as (sq & ? & H); [|done]. congruence.
Qed.

Lemma get_row_anchors_only (b b' : board_t) (j : nat) :
  anchors_only b b' →
  match get b j, get b' j with
  | Ok row, Ok row' => Forall2 same_or_anchor row row'
  | Raise e, Raise e' => e = e'
  | _, _ => False
  end.
Proof.
  intros H. unfold get. destruct (b !! j) as [row|] eqn:E.
  - by destruct (anchors_only_row _ _ _ _ H E) as (row' & -> & Hrow).
  - destruct (b' !! j) as [row'|] eqn:E'; [|done].
    destruct (anchors_only_row_r _ _ _ _ H E') as (row & ? & _). congruence.
Qed.

Lemma get2_anchors_only (b b' : board_t) (j i : nat) :
  anchors_only b b' →
  match get2 b j i, get2 b' j i with
  | Ok sq, Ok sq' => same_or_anchor sq sq'
  | Raise e, Raise e' => e = e'
  | _, _ => False
  end.
Proof.
  intros H. unfold get2. pose proof (get_row_anchors_only b b' j H) as Hrow.
  destruct (get b j) as [row|e], (get b' j) as [row'|e']; try done. simpl.
  by apply get_same_or_anchor.
Qed.

Lemma cross_up_anchors_only (b b' : board_t) (i j2 : nat) (w : str) :
  anchors_only b b' → cross_up b' i j2 w = cross_up b i j2 w.
Proof.
  intros H. revert w. induction j2 as [|k IH]; intros w; [done|]. simpl.
  pose proof (get2_anchors_only b b' k i H) as Hsq.
  destruct (get2 b k i) as [sq|e], (get2 b' k i) as [sq'|e']; try done; [|by subst].
  simpl. apply same_or_anchor_cases in Hsq as [[Hl ->]|[Hl Hl']].
  - rewrite Hl. destruct sq as [c| |a]; [|done..]. destruct k; [done|apply IH].
  - by rewrite Hl, Hl'.
Qed.

Lemma cross_down_anchors_only (rows rows' : board_t) (i : nat) (w : str) :
  Forall2 (Forall2 same_or_anchor) rows rows' →
  cross_down rows' i w = cross_down rows i w.
Proof.
  intros H. revert w. induction H as [|row row' rows rows' Hrow _ IH]; intros w; [done|].
  simpl. pose proof (get_same_or_anchor row row' i Hrow) as Hsq.
  destruct (get row i) as [sq|e], (get row' i) as [sq'|e']; try done; [|by subst].
  simpl. apply same_or_anchor_cases in Hsq as [[Hl ->]|[Hl Hl']].
  - destruct sq as [c| |a]; [|done..]. rewrite Hl. apply IH.
  - destruct sq as [c| |a], sq' as [c'| |a']; try done; by rewrite ?Hl, ?Hl'.
Qed.

(** [find_cross_word] reads the letters of the board and nothing else. *)
Lemma find_cross_word_anchors_only (b b' : board_t) (i j : nat) :
  anchors_only b b' → find_cross_word b' i j = find_cross_word b i j.
Proof.
  intros H. unfold find_cross_word.
  pose proof (get2_anchors_only b b' j i H) as Hsq.
  destruct (get2 b j i) as [sq|e], (get2 b' j i) as [sq'|e']; try done; [|by subst].
  rewrite !Ok_bind. cbv beta.
  assert (match sq' with
          | Str c => if is_letter sq' then [c] else s "."
          | _ => s "."
          end
          = match sq with
            | Str c => if is_letter sq then [c] else s "."
            | _ => s "."
            end) as ->.
  { apply same_or_anchor_cases in Hsq as [[Hl ->]|[Hl Hl']]; [done|].
    destruct sq as [c| |a], sq' as [c'| |a']; try done; by rewrite ?Hl, ?Hl'. }
  rewrite (cross_up_anchors_only b b') by done.
  destruct (cross_up b i j _) as [[j2 w]|e]; [|done]. rewrite !Ok_bind.
  rewrite (cross_down_anchors_only (drop (j + 1) b) (drop (j + 1) b')); [done|].
  by apply Forall2_drop.
Qed.

(* ================================================================= *)
(** ** The cache of [find_prefixes] *)


(** The cache stays sound when [find_prefixes] is called as the module
    calls it, with no set or with an empty one. *)
Lemma find_prefixes_cache_sound (words4k hand prefix : str) (results : option (gset str))
    (cache : cache_t) :
  results = None ∨ results = Some ∅ →
  cache_sound words4k cache →
  cache_sound words4k (find_prefixes words4k hand prefix results cache).2.
Proof.
  intros Hres Hc. unfold find_prefixes.
  destruct prefix as [|c prefix].
  - destruct (cache !! hand) as [cached|]; [done|].
    destruct Hres as [-> | ->].
    + destruct (in_PREFIXES words4k []); [done|]. simpl.
      intros h found [_ [=]]%lookup_singleton_Some.
    + destruct (find_prefixes_from words4k (length hand) hand [] ∅) as [r|e] eqn:E;
        [|done]. simpl. by intros h found [<- [= <-]]%lookup_singleton_Some.
  - by destruct (match results with None => _ | Some r => _ end).
Qed.

(* ================================================================= *)
(** ** The bonus squares *)







(* ================================================================= *)
(** ** Matrices whose rows differ in length *)





(* ================================================================= *)
(** ** Tiles taken from a hand *)

Lemma remove_first_elem (L : ascii) (hand : str) :
  L ∈ hand → hand ≡ₚ L :: remove_first L hand.
Proof.
  induction hand as [|c h IH]; [by intros ?%elem_of_nil|]. simpl.
  destruct (Ascii.eqb_spec c L) as [->|Hne]; [done|].
  intros [?|Hh]%elem_of_cons; [congruence|].
  rewrite (IH Hh) at 1. apply Permutation_swap.
Qed.

Lemma remove_first_not_elem (L : ascii) (hand : str) :
  L ∉ hand → remove_first L hand = hand.
Proof.
  induction hand as [|c h IH]; [done|]. simpl. intros Hh.
  destruct (Ascii.eqb_spec c L) as [->|Hne]; [exfalso; apply Hh; left|].
  f_equal. apply IH. intros ?. apply Hh. by right.
Qed.

Lemma remove_first_sublist (L : ascii) (hand : str) :
  sublist (remove_first L hand) hand.
Proof.
  induction hand as [|c h IH]; simpl; [done|].
  destruct (Ascii.eqb c L); [by apply sublist_cons|by apply sublist_skip].
Qed.

Lemma remove_first_count (L c : ascii) (hand : str) :
  count_occ Ascii.ascii_dec (remove_first L hand) c =
  count_occ Ascii.ascii_dec hand c - (if decide (c = L) then 1 else 0).
Proof.
  induction hand as [|x h IH]; simpl; [done|].
  destruct (Ascii.eqb_spec x L) as [E|Hne].
  - destruct (Ascii.ascii_dec x c), (decide (c = L)); simpl; try congruence; lia.
  - simpl. rewrite IH.
    destruct (Ascii.ascii_dec x c), (decide (c = L)); simpl; try congruence; lia.
Qed.

Lemma submseteq_cons_remove_first (L : ascii) (q hand : str) :
  L :: q ⊆+ hand ↔ L ∈ hand ∧ q ⊆+ remove_first L hand.
Proof.
  split.
  - intros H. assert (L ∈ hand) as HL.
    { eapply elem_of_submseteq; [|exact H]. left. }
    split; [done|].
    apply submseteq_cons_l in H as (k & Hk & Hq).
    rewrite (remove_first_elem L hand HL) in Hk.
    apply Permutation_cons_inv in Hk. by rewrite Hk.
  - intros [HL Hq]. rewrite (remove_first_elem L hand HL). by apply submseteq_skip.
Qed.

Lemma removed_submseteq (letters remove : str) :
  remove ⊆+ letters → remove ++ removed letters remove ≡ₚ letters.
Proof.
  unfold removed. revert letters.
  induction remove as [|L remove IH]; intros letters H; simpl; [done|].
  apply submseteq_cons_remove_first in H as [HL H].
  rewrite (IH _ H). by rewrite <- remove_first_elem.
Qed.

Lemma removed_sublist (letters remove : str) : sublist (removed letters remove) letters.
Proof.
  unfold removed. revert letters.
  induction remove as [|L remove IH]; intros letters; simpl; [done|].
  etrans; [apply IH|apply remove_first_sublist].
Qed.

(** X3: [removed(letters, remove)] leaves the letters of [letters] in
    their order, each of them as many times as [letters] has it, less the
    times that [remove] has it; a letter of [remove] that [letters] has no
    more of is passed over. When all of [remove] is in [letters], [remove]
    and what is left make up [letters]. *)
Theorem removed_counts (letters remove : str) :
  sublist (removed letters remove) letters ∧
  (∀ c, count_occ Ascii.ascii_dec (removed letters remove) c =
        count_occ Ascii.ascii_dec letters c - count_occ Ascii.ascii_dec remove c) ∧
  (remove ⊆+ letters → remove ++ removed letters remove ≡ₚ letters).
Proof.
  split_and!; [apply removed_sublist| |apply removed_submseteq].
  intros c. unfold removed. revert letters.
  induction remove as [|L remove IH]; intros letters; simpl; [lia|].
  rewrite IH, remove_first_count.
  destruct (Ascii.ascii_dec L c), (decide (c = L)); try congruence; lia.
Qed.

Lemma removed_counts_witness :
  s "AB" ++ removed (s "BANANA") (s "AB") ≡ₚ s "BANANA".
Proof.
  apply (removed_counts (s "BANANA") (s "AB")).
  apply (bool_decide_unpack _). vm_compute. exact I.
Defined.

(* ================================================================= *)
(** ** The words and the prefixes of the dictionary *)

Lemma split_from_tokens (text tok w : str) :
  Forall (fun c => is_space c = false) tok →
  w ∈ split_from text tok →
  w ≠ [] ∧ Forall (fun c => is_space c = false ∧ c ∈ tok ++ text) w.
Proof.
  revert tok. induction text as [|c text IH]; intros tok Htok; simpl.
  - destruct tok as [|t tok]; [by intros ?%elem_of_nil|].
    intros ->%list_elem_of_singleton. split; [done|].
    rewrite app_nil_r. apply Forall_forall. intros x Hx. split; [|done].
    by eapply Forall_forall in Htok.
  - destruct (is_space c) eqn:Hc.
    + assert (w ∈ split_from text [] →
              w ≠ [] ∧ Forall (fun x => is_space x = false ∧ x ∈ tok ++ c :: text) w) as Hrest.
      { intros Hw. apply IH in Hw as [? Hw]; [|done]. split; [done|].
        eapply Forall_impl; [exact Hw|]. intros x [? Hx]. split; [done|].
        simpl in Hx. set_solver. }
      destruct tok as [|t tok]; [done|].
      intros [->|Hw]%elem_of_cons; [|auto]. split; [done|].
      apply Forall_forall. intros x Hx. split; [by eapply Forall_forall in Htok|].
      set_solver.
    + intros Hw. apply IH in Hw as [? Hw].
      * split; [done|]. eapply Forall_impl; [exact Hw|]. intros x [? Hx].
        split; [done|]. by rewrite <- app_assoc in Hx.
      * apply Forall_app. split; [done|]. by constructor.
Qed.

Lemma upper_char_idemp (c : ascii) : upper_char (upper_char c) = upper_char c.
Proof. by destruct c as [[] [] [] [] [] [] [] []]. Qed.

Lemma token_upper (text w : str) :
  w ∈ split (upper text) → w ≠ [] ∧ Forall (fun c => is_space c = false) w ∧ upper w = w.
Proof.
  intros Hw. apply split_from_tokens in Hw as [Hne Hw]; [|done].
  split_and!; [done|by eapply Forall_impl; [exact Hw|]; intros ? []|].
  unfold upper. rewrite <- (map_id w) at 2. apply map_ext_Forall.
  eapply Forall_impl; [exact Hw|]. intros c [_ Hc]. simpl in Hc.
  apply list_elem_of_fmap in Hc as (c' & -> & _). apply upper_char_idemp.
Qed.

Lemma prefixset_nil (text : str) :
  [] ∈ (readwordlist text).2 ↔ (readwordlist text).1 ≠ ∅.
Proof.
  rewrite elem_of_prefixset. split.
  - intros (w & Hw & _). apply elem_of_wordset in Hw. set_solver.
  - intros Hne. apply set_choose_L in Hne as [w Hw]. apply elem_of_wordset in Hw.
    exists w. split_and!; [done|apply prefix_nil|].
    apply token_upper in Hw as [Hw _]. congruence.
Qed.

Lemma prefixset_closed (text p q : str) :
  p ∈ (readwordlist text).2 → q `prefix_of` p → q ∈ (readwordlist text).2.
Proof.
  rewrite !elem_of_prefixset. intros (w & Hw & Hp & Hne) Hq. exists w.
  split_and!; [done|by etrans|]. intros ->. apply Hne.
  by apply (anti_symm prefix).
Qed.

Lemma wordset_prefix (text p q : str) :
  p ++ q ∈ (readwordlist text).1 → q ≠ [] → p ∈ (readwordlist text).2.
Proof.
  intros Hw Hq. apply elem_of_prefixset. exists (p ++ q).
  split_and!; [by apply elem_of_wordset|by exists q|].
  intros E. apply Hq. apply (f_equal length) in E. rewrite length_app in E.
  apply length_zero_iff_nil. lia.
Qed.

(** X4: every word of the dictionary is a token of the text in upper case:
    it is not the empty string, has no white space in it, and
    [word.upper()] is the word itself. *)
Theorem words_are_upper_case_tokens (text w : str) :
  w ∈ (readwordlist text).1 →
  w ≠ [] ∧ Forall (fun c => is_space c = false) w ∧ upper w = w.
Proof. intros Hw. by apply (token_upper text), elem_of_wordset. Qed.

Lemma words_are_upper_case_tokens_witness :
  s "CAB" ≠ [] ∧ Forall (fun c => is_space c = false) (s "CAB") ∧ upper (s "CAB") = s "CAB".
Proof.
  apply (words_are_upper_case_tokens (s "a cab ")).
  apply elem_of_wordset. vm_compute. set_solver.
Defined.

(** X5: the prefix set is closed under prefixes: with a string it holds
    every string that this one starts with. It holds the empty string
    exactly when the dictionary has a word. *)
Theorem prefixset_prefix_closed (text : str) :
  (∀ p q, p ∈ (readwordlist text).2 → q `prefix_of` p → q ∈ (readwordlist text).2) ∧
  ([] ∈ (readwordlist text).2 ↔ (readwordlist text).1 ≠ ∅).
Proof. split; [apply prefixset_closed|apply prefixset_nil]. Qed.

(* ================================================================= *)
(** ** The strings that a hand spells *)

(** What a loop returns whose body adds to the set, for each item, the
    elements that [S] relates to the item. *)
Lemma for_each_collect {A X} `{Countable X} (l : list A)
    (body : gset X → A → res (gset X)) (S : A → X → Prop) (acc : gset X) :
  (∀ x acc, x ∈ l →
     ∃ r, body acc x = Ok r ∧ ∀ e, e ∈ r ↔ e ∈ acc ∨ S x e) →
  ∃ r, for_each l body acc = Ok r ∧ ∀ e, e ∈ r ↔ e ∈ acc ∨ ∃ x, x ∈ l ∧ S x e.
Proof.
  revert acc. induction l as [|x l IH]; intros acc Hbody; simpl.
  - exists acc. split; [done|]. intros e. split; [auto|].
    intros [?|(x & ?%elem_of_nil & _)]; done.
  - destruct (Hbody x acc ltac:(left)) as (r1 & -> & H1). rewrite Ok_bind.
    destruct (IH r1) as (r & -> & Hr).
    { intros y acc' Hy. apply Hbody. by right. }
    exists r. split; [done|]. intros e. rewrite Hr, H1. split.
    + intros [[?|?]|(y & Hy & ?)]; [by left| |].
      * right. exists x. split; [left|done].
      * right. exists y. split; [by right|done].
    + intros [?|(y & [->|Hy]%elem_of_cons & ?)]; [by left; left|by left; right|].
      right. by exists y.
Qed.

Section Explore.

(** A search that visits the strings that a hand spells after [prefix],
    keeps those that [keep] holds of and goes on from those that [go]
    holds of; [find_words], [find_prefixes] and the [add_suffixes] of
    [word_plays] are such searches. *)
Variables keep go : str → bool.
Variable search : nat → str → str → gset str → res (gset str).

Hypothesis search_eq : ∀ depth hand prefix results,
  search depth hand prefix results =
    (let results := if keep prefix then {[ prefix ]} ∪ results else results in
     if go prefix
     then for_each hand
            (fun results L =>
               match depth with
               | 0 => Raise RecursionError
               | S depth' => search depth' (remove_first L hand) (prefix ++ [L]) results
               end) results
     else Ok results).

Hypothesis go_before_keep : ∀ p q, keep (p ++ q) = true → q ≠ [] → go p = true.

Lemma search_spec (depth : nat) (hand prefix : str) (results : gset str) :
  length hand ≤ depth →
  ∃ r, search depth hand prefix results = Ok r ∧
    ∀ p, p ∈ r ↔ p ∈ results ∨ ∃ q, p = prefix ++ q ∧ q ⊆+ hand ∧ keep p = true.
Proof using search_eq go_before_keep.
  revert hand prefix results.
  assert (∀ (hand prefix : str) (results : gset str) (p : str),
            go prefix = false ∨ hand = [] →
            p ∈ (if keep prefix then {[ prefix ]} ∪ results else results) ↔
            p ∈ results ∨ ∃ q, p = prefix ++ q ∧ q ⊆+ hand ∧ keep p = true) as Hstop.
  { intros hand prefix results p Hstop.
    assert (p ∈ (if keep prefix then {[ prefix ]} ∪ results else results) ↔
            p ∈ results ∨ (p = prefix ∧ keep p = true)) as ->.
    { destruct (keep prefix) eqn:E.
      - rewrite elem_of_union, elem_of_singleton. split.
        + intros [->|?]; auto.
        + intros [?|[-> _]]; auto.
      - split; [auto|]. intros [?|[-> ?]]; [done|congruence]. }
    split.
    - intros [?|[-> ?]]; [by left|]. right. exists [].
      split_and!; [by rewrite app_nil_r|apply submseteq_nil_l|done].
    - intros [?|(q & -> & Hq & Hk)]; [by left|]. right.
      destruct q as [|L q]; [by rewrite app_nil_r in *|].
      destruct Hstop as [Hgo| ->].
      + by rewrite (go_before_keep prefix (L :: q)) in Hgo.
      + by apply submseteq_nil_r in Hq. }
  induction depth as [|depth IH]; intros hand prefix results Hdepth.
  all: rewrite search_eq; cbv zeta.
  all: destruct (go prefix) eqn:Hgo; [|eexists; split; [done|]; intros p; apply Hstop; by left].
  - destruct hand; [|simpl in Hdepth; lia]. simpl.
    eexists. split; [done|]. intros p. apply Hstop. by right.
  - set (results' := if keep prefix then {[ prefix ]} ∪ results else results).
    destruct (for_each_collect hand
                (fun results L => search depth (remove_first L hand) (prefix ++ [L]) results)
                (fun L p => ∃ q, p = (prefix ++ [L]) ++ q ∧ q ⊆+ remove_first L hand ∧
                                  keep p = true) results') as (r & Hr & Hspec).
    { intros L acc HL. apply IH.
      assert (length hand = S (length (remove_first L hand))) as E.
      { by rewrite (remove_first_elem L hand HL) at 1. }
      lia. }
    exists r. split; [done|]. intros p. rewrite Hspec.
    assert (p ∈ results' ↔ p ∈ results ∨ (p = prefix ∧ keep p = true)) as ->.
    { unfold results'. destruct (keep prefix) eqn:E.
      - rewrite elem_of_union, elem_of_singleton. split.
        + intros [->|?]; auto.
        + intros [?|[-> _]]; auto.
      - split; [auto|]. intros [?|[-> ?]]; [done|congruence]. }
    split.
    + intros [[?|[-> ?]]|(L & HL & q & -> & Hq & Hk)]; [by left| |].
      * right. exists [].
      split_and!; [by rewrite app_nil_r|apply submseteq_nil_l|done].
      * right. exists (L :: q). rewrite <- app_assoc in *. split_and!; [done| |done].
        by apply submseteq_cons_remove_first.
    + intros [?|(q & -> & Hq & Hk)]; [by left; left|].
      destruct q as [|L q]; [left; right; by rewrite app_nil_r in *|].
      apply submseteq_cons_remove_first in Hq as [HL Hq].
      right. exists L. split; [done|]. exists q. by rewrite <- app_assoc.
Qed.

End Explore.

Section Spelled.

Variable words4k : str.

Lemma find_prefixes_from_spec (depth : nat) (hand prefix : str) (results : gset str) :
  length hand ≤ depth →
  ∃ r, find_prefixes_from words4k depth hand prefix results = Ok r ∧
    ∀ p, p ∈ r ↔ p ∈ results ∨
                 ∃ q, p = prefix ++ q ∧ q ⊆+ hand ∧ p ∈ PREFIXES words4k.
Proof.
  intros Hdepth.
  destruct (search_spec (in_PREFIXES words4k) (in_PREFIXES words4k) (find_prefixes_from words4k))
    with (depth := depth) (hand := hand) (prefix := prefix) (results := results)
    as (r & Hr & Hspec); [| |done|].
  - intros d h p rs. destruct d; simpl; by destruct (in_PREFIXES words4k p).
  - intros p q Hk _. apply bool_decide_eq_true. apply bool_decide_eq_true in Hk.
    eapply prefixset_closed; [exact Hk|]. by exists q.
  - exists r. split; [done|]. intros p. rewrite Hspec.
    unfold in_PREFIXES. by setoid_rewrite bool_decide_eq_true.
Qed.

Lemma find_words_from_spec (depth : nat) (letters prefix : str) (results : gset str) :
  length letters ≤ depth →
  ∃ r, find_words_from words4k depth letters prefix results = Ok r ∧
    ∀ w, w ∈ r ↔ w ∈ results ∨
                 ∃ q, w = prefix ++ q ∧ q ⊆+ letters ∧ w ∈ WORDS words4k.
Proof.
  intros Hdepth.
  destruct (search_spec (in_WORDS words4k) (in_PREFIXES words4k) (find_words_from words4k))
    with (depth := depth) (hand := letters) (prefix := prefix) (results := results)
    as (r & Hr & Hspec); [| |done|].
  - intros d h p rs. by destruct d.
  - intros p q Hk Hq. apply bool_decide_eq_true. apply bool_decide_eq_true in Hk.
    by eapply wordset_prefix.
  - exists r. split; [done|]. intros p. rewrite Hspec.
    unfold in_WORDS. by setoid_rewrite bool_decide_eq_true.
Qed.

Lemma add_suffixes'_spec (depth : nat) (hand prefix : str) (results : gset str) :
  length hand ≤ depth →
  ∃ r, add_suffixes' words4k depth hand prefix results = Ok r ∧
    ∀ w, w ∈ r ↔ w ∈ results ∨
                 ∃ q, w = prefix ++ q ∧ q ⊆+ hand ∧ w ∈ WORDS words4k.
Proof.
  intros Hdepth.
  destruct (search_spec (in_WORDS words4k) (in_PREFIXES words4k) (add_suffixes' words4k))
    with (depth := depth) (hand := hand) (prefix := prefix) (results := results)
    as (r & Hr & Hspec); [| |done|].
  - intros d h p rs. by destruct d.
  - intros p q Hk Hq. apply bool_decide_eq_true. apply bool_decide_eq_true in Hk.
    by eapply wordset_prefix.
  - exists r. split; [done|]. intros p. rewrite Hspec.
    unfold in_WORDS. by setoid_rewrite bool_decide_eq_true.
Qed.

Lemma in_PREFIXES_nil :
  in_PREFIXES words4k [] = if decide (WORDS words4k = ∅) then false else true.
Proof.
  unfold in_PREFIXES, PREFIXES, WORDS. destruct (decide _) as [He|Hne].
  - apply bool_decide_eq_false_2. intros H%prefixset_nil. by apply H.
  - apply bool_decide_eq_true_2. by apply prefixset_nil.
Qed.

Lemma find_prefixes_fresh (hand : str) (cache : cache_t) :
  cache !! hand = None →
  ∃ found,
    find_prefixes words4k hand [] (Some ∅) cache =
      (Ok (Some found), {[ hand := Some found ]}) ∧
    ∀ p, p ∈ found ↔ p ∈ PREFIXES words4k ∧ p ⊆+ hand.
Proof.
  intros Hmiss. unfold find_prefixes. rewrite Hmiss.
  destruct (find_prefixes_from_spec (length hand) hand [] ∅) as (found & -> & Hspec); [done|].
  exists found. split; [done|]. intros p. rewrite Hspec. split.
  - intros [?%elem_of_empty|(q & -> & ? & ?)]; done.
  - intros [? ?]. right. by exists p.
Qed.

(** X6: [find_prefixes(hand, '', set())], for a hand that the cache does
    not hold, returns the set of the strings of the prefix set that the
    letters of the hand spell, each letter used no more often than the hand
    has it. It leaves a cache that holds this set for the hand and nothing
    else, from which every later call for the hand returns it, whatever
    [results] is passed. *)
Theorem find_prefixes_finds (hand : str) (cache : cache_t) :
  cache !! hand = None →
  ∃ found cache',
    find_prefixes words4k hand [] (Some ∅) cache = (Ok (Some found), cache') ∧
    (∀ p, p ∈ found ↔ p ∈ PREFIXES words4k ∧ p ⊆+ hand) ∧
    cache' = {[ hand := Some found ]} ∧
    ∀ results, find_prefixes words4k hand [] results cache' = (Ok (Some found), cache').
Proof.
  intros Hmiss. destruct (find_prefixes_fresh hand cache Hmiss) as (found & Hf & Hspec).
  exists found, {[ hand := Some found ]}. split_and!; [done..|].
  intros results. unfold find_prefixes. by rewrite lookup_singleton_eq.
Qed.

(** X7: [find_prefixes(hand)], with [results] left to its default, finds
    nothing by itself. For a hand that the cache does not hold it raises
    [AttributeError] and leaves the cache as it is when the dictionary has
    a word; when the dictionary is empty it returns [None] and stores
    [None] for the hand. *)
Theorem find_prefixes_default (hand : str) (cache : cache_t) :
  cache !! hand = None →
  find_prefixes words4k hand [] None cache =
    if decide (WORDS words4k = ∅)
    then (Ok None, {[ hand := None ]})
    else (Raise AttributeError, cache).
Proof.
  intros Hmiss. unfold find_prefixes. rewrite Hmiss, in_PREFIXES_nil.
  by destruct (decide (WORDS words4k = ∅)).
Qed.

(** X8: [find_words(letters)] returns the set of the words of the
    dictionary that the letters spell, each letter used no more often than
    [letters] has it; when the dictionary is empty it returns [None], not
    an empty set. *)
Theorem find_words_finds (letters : str) :
  ∃ found,
    find_words words4k letters [] None =
      Ok (if decide (WORDS words4k = ∅) then None else Some found) ∧
    ∀ w, w ∈ found ↔ w ∈ WORDS words4k ∧ w ⊆+ letters.
Proof.
  unfold find_words. simpl.
  destruct (find_words_from_spec (length letters) letters [] ∅) as (found & -> & Hspec); [done|].
  exists found. rewrite Ok_bind. split.
  - rewrite in_PREFIXES_nil. by destruct (decide (WORDS words4k = ∅)).
  - intros p. rewrite Hspec. split.
    + intros [?%elem_of_empty|(q & -> & ? & ?)]; done.
    + intros [? ?]. right. by exists p.
Qed.

Lemma length_removed (letters remove : str) : length (removed letters remove) ≤ length letters.
Proof. apply sublist_length, removed_sublist. Qed.

Lemma submseteq_app_removed (hand prefix suffix : str) :
  prefix ++ suffix ⊆+ hand ↔ prefix ⊆+ hand ∧ suffix ⊆+ removed hand prefix.
Proof.
  split.
  - intros H. assert (prefix ⊆+ hand) as Hp.
    { etrans; [|exact H]. by apply submseteq_inserts_r. }
    split; [done|]. rewrite <- (removed_submseteq hand prefix Hp) in H.
    by apply submseteq_app_inv_l in H.
  - intros [Hp Hs]. rewrite <- (removed_submseteq hand prefix Hp).
    by apply submseteq_app.
Qed.

Lemma word_plays_fresh (hand board_letters : str) (cache : cache_t) :
  cache !! hand = None →
  ∃ words cache',
    word_plays words4k hand board_letters cache = (Ok words, cache') ∧
    ∀ w, w ∈ words ↔
         w ∈ WORDS words4k ∧
         ∃ prefix L suffix,
           w = prefix ++ L :: suffix ∧ L ∈ board_letters ∧ prefix ++ suffix ⊆+ hand.
Proof.
  intros Hmiss. unfold word_plays.
  destruct (find_prefixes_fresh hand cache Hmiss) as (found & -> & Hfound).
  rewrite Ok_bind.
  destruct (for_each_collect (elements found)
    (fun results prefix =>
       for_each board_letters
         (fun results L =>
            add_suffixes' words4k (length hand) (removed hand prefix) (prefix ++ [L]) results)
         results)
    (fun prefix w => ∃ L, L ∈ board_letters ∧
       ∃ q, w = (prefix ++ [L]) ++ q ∧ q ⊆+ removed hand prefix ∧ w ∈ WORDS words4k) ∅)
    as (words & Hw & Hspec).
  { intros prefix acc _. apply for_each_collect. intros L acc' _.
    apply add_suffixes'_spec, length_removed. }
  exists words, {[ hand := Some found ]}. split; [by rewrite Hw|].
  intros w. rewrite Hspec. split.
  - intros [?%elem_of_empty|(prefix & Hp & L & HL & q & -> & Hq & Hin)]; [done|].
    split; [done|]. exists prefix, L, q. rewrite <- app_assoc. split_and!; [done..|].
    apply submseteq_app_removed. split; [|done]. by apply Hfound, elem_of_elements.
  - intros [Hin (prefix & L & suffix & -> & HL & Hsub)]. right.
    apply submseteq_app_removed in Hsub as [Hp Hs].
    exists prefix. split.
    + apply elem_of_elements, Hfound. split; [|done].
      by apply (wordset_prefix words4k prefix (L :: suffix)).
    + exists L. split; [done|]. exists suffix. by rewrite <- app_assoc.
Qed.

(** X9: [word_plays(hand, board_letters)], for a hand that the cache does
    not hold, returns the set of the words of the dictionary that are made
    of a letter of [board_letters] with letters of the hand before and
    after it, each letter of the hand used no more often than the hand has
    it. *)
Theorem word_plays_finds (hand board_letters : str) (cache : cache_t) :
  cache !! hand = None →
  ∃ words cache',
    word_plays words4k hand board_letters cache = (Ok words, cache') ∧
    ∀ w, w ∈ words ↔
         w ∈ WORDS words4k ∧
         ∃ prefix L suffix,
           w = prefix ++ L :: suffix ∧ L ∈ board_letters ∧ prefix ++ suffix ⊆+ hand.
Proof. apply word_plays_fresh. Qed.

End Spelled.

Lemma find_prefixes_finds_witness :
  ∃ found cache',
    find_prefixes (s "cab") (s "AC") [] (Some ∅) ∅ = (Ok (Some found), cache') ∧
    (∀ p, p ∈ found ↔ p ∈ PREFIXES (s "cab") ∧ p ⊆+ s "AC") ∧
    cache' = {[ s "AC" := Some found ]} ∧
    ∀ results, find_prefixes (s "cab") (s "AC") [] results cache' = (Ok (Some found), cache').
Proof. apply (find_prefixes_finds (s "cab") (s "AC") ∅). reflexivity. Defined.

Lemma find_prefixes_default_witness :
  find_prefixes (s "cab") (s "AC") [] None ∅ =
    if decide (WORDS (s "cab") = ∅)
    then (Ok None, {[ s "AC" := None ]})
    else (Raise AttributeError, ∅).
Proof. apply (find_prefixes_default (s "cab") (s "AC") ∅). reflexivity. Defined.

Lemma word_plays_finds_witness :
  ∃ words cache',
    word_plays (s "cab") (s "AC") (s "B") ∅ = (Ok words, cache') ∧
    ∀ w, w ∈ words ↔
         w ∈ WORDS (s "cab") ∧
         ∃ prefix L suffix,
           w = prefix ++ L :: suffix ∧ L ∈ s "B" ∧ prefix ++ suffix ⊆+ s "AC".
Proof. apply (word_plays_finds (s "cab") (s "AC") (s "B") ∅). reflexivity. Defined.

(* ================================================================= *)
(** ** The score of letters that are on the board *)

Lemma score_loop_letters cross (board : board_t) (i j di dj : nat)
    (word : str) (n total cross_total word_multiplier : nat) :
  (∀ k, k < length word →
        ∃ sq b, entry board (j + (n + k) * dj) (i + (n + k) * di) = Some sq ∧
                is_letter sq = true ∧
                entry BONUS (j + (n + k) * dj) (i + (n + k) * di) = Some b) →
  score_loop cross board (i, j) (di, dj) word n total cross_total word_multiplier =
    (total ← for_each word
       (fun total letter =>
          match POINTS !! letter with
          | Some points => Ok (total + points)
          | None => Raise KeyError
          end) total;
     Ok (cross_total + word_multiplier * total)).
Proof.
  revert n total cross_total word_multiplier.
  induction word as [|L word IH]; intros n total cross_total word_multiplier Hsq;
    [done|].
  destruct (Hsq 0) as (sq & b & Esq & Hl & Eb); [simpl; lia|].
  rewrite Nat.add_0_r in Esq, Eb.
  cbn [score_loop for_each].
  apply get2_Ok in Esq. apply get2_Ok in Eb. rewrite Esq, Eb, !Ok_bind.
  unfold word_bonus, letter_bonus. rewrite Hl.
  destruct (POINTS !! L) as [points|]; [|done]. rewrite !Ok_bind.
  assert (is_set sq = false) as ->.
  { destruct (is_set sq) eqn:E; [|done]. apply is_set_not_letter in E. congruence. }
  cbn [andb]. rewrite Ok_bind, !Nat.mul_1_r. apply IH.
  intros k Hk. destruct (Hsq (S k)) as (sq' & b' & ? & ? & ?); [simpl; lia|].
  exists sq', b'. by replace (S n + k) with (n + S k) by lia.
Qed.

(** X10: a word that lies on squares of the board that all hold letters
    scores the sum of the points of its letters, [word_score(word)]: no
    bonus square counts under a letter that is on the board, and no cross
    word is scored. When a character of the word has no entry in [POINTS],
    both raise [KeyError]. *)
Theorem calculate_score_over_letters (board : board_t)
    (i j di dj : nat) (hand word : str) :
  (∀ k, k < length word →
        ∃ sq b, entry board (j + k * dj) (i + k * di) = Some sq ∧
                is_letter sq = true ∧
                entry BONUS (j + k * dj) (i + k * di) = Some b) →
  calculate_score board (i, j) (di, dj) hand word = word_score word.
Proof.
  intros Hsq. unfold calculate_score, score_with, word_score.
  rewrite score_loop_letters by done.
  destruct (for_each word _ 0) as [total|e]; [|done].
  rewrite Ok_bind. f_equal. lia.
Qed.

Lemma calculate_score_over_letters_witness :
  calculate_score (board_of ["|||||"; "|CAB|"; "|||||"]%string)
    (1, 1) ACROSS [] (s "CAB") = word_score (s "CAB").
Proof.
  apply (calculate_score_over_letters
           (board_of ["|||||"; "|CAB|"; "|||||"]%string) 1 1 1 0 [] (s "CAB")).
  intros [|[|[|k]]] Hk; [| | |simpl in Hk; lia].
  all: eexists _, _; split_and!; vm_compute; reflexivity.
Defined.

(* ================================================================= *)
(** ** The word that crosses a square *)

Lemma column_entry (board : board_t) (i j : nat) :
  Forall (fun row => i < length row) board → j < length board →
  ∃ sq, entry board j i = Some sq.
Proof.
  intros Hcol Hj. apply lookup_lt_is_Some in Hj as [row Hrow].
  eapply Forall_lookup in Hcol; [|done]. apply lookup_lt_is_Some in Hcol as [sq Hsq].
  exists sq. unfold entry. by rewrite Hrow.
Qed.

Lemma cross_up_reads (board : board_t) (i j : nat) (w : str) :
  Forall (fun row => i < length row) board → 1 ≤ j ≤ length board →
  letter_at board 0 i = false →
  ∃ j2 above,
    cross_up board i j w = Ok (Some j2, above ++ w) ∧
    1 ≤ j2 ∧ j2 + length above = j ∧
    (∀ k c, above !! k = Some c →
            entry board (j2 + k) i = Some (Str c) ∧ in_LETTERS c = true) ∧
    letter_at board (j2 - 1) i = false.
Proof.
  intros Hcol Hj Htop. revert w. induction j as [|k IH]; intros w; [lia|].
  destruct (column_entry board i k Hcol) as [sq2 Esq2]; [lia|].
  simpl. rewrite (proj2 (get2_Ok _ _ _ _) Esq2), Ok_bind.
  destruct (is_letter sq2) eqn:El.
  - destruct sq2 as [c| |a]; [|done..]. destruct k as [|k'].
    { unfold letter_at in Htop. rewrite Esq2 in Htop. congruence. }
    destruct (IH ltac:(lia) (c :: w)) as (j2 & above & -> & Hj2 & Hlen & Habove & Hstop).
    exists j2, (above ++ [c]). rewrite <- app_assoc, length_app. simpl.
    split_and!; [done|done|lia| |done].
    intros n x Hn. destruct (decide (n < length above)) as [Hlt|Hge].
    + rewrite lookup_app_l in Hn by done. by apply Habove.
    + rewrite lookup_app_r in Hn by lia.
      destruct (n - length above) as [|m] eqn:E; simpl in Hn; [|by destruct m].
      injection Hn as <-. replace (j2 + n) with (S k') by lia. done.
  - exists (S k), []. simpl. rewrite Nat.sub_0_r. split_and!; [done|lia|lia|done|].
    unfold letter_at. by rewrite Esq2.
Qed.

Lemma cross_down_reads (rows : board_t) (i : nat) (w : str) :
  Forall (fun row => i < length row) rows →
  ∃ below,
    cross_down rows i w = Ok (w ++ below) ∧
    (∀ k c, below !! k = Some c →
            entry rows k i = Some (Str c) ∧ in_LETTERS c = true) ∧
    letter_at rows (length below) i = false.
Proof.
  revert w. induction rows as [|row rows IH]; intros w Hcol.
  - exists []. by rewrite app_nil_r.
  - apply Forall_cons in Hcol as [Hi Hcol].
    apply lookup_lt_is_Some in Hi as [sq3 Esq3].
    simpl. rewrite (proj2 (get_Ok _ _ _) Esq3), Ok_bind.
    destruct sq3 as [c| |a].
    + destruct (is_letter (Str c)) eqn:El.
      * destruct (IH (w ++ [c]) Hcol) as (below & -> & Hbelow & Hstop).
        exists (c :: below). rewrite <- app_assoc. split_and!; [done| |done].
        intros [|k] x Hk; simpl in Hk; [|by apply Hbelow].
        injection Hk as <-. unfold entry. simpl. by rewrite Esq3.
      * exists []. rewrite app_nil_r. split_and!; [done|done|].
        unfold letter_at, entry. simpl. by rewrite Esq3.
    + exists []. rewrite app_nil_r. split_and!; [done|done|].
      unfold letter_at, entry. simpl. by rewrite Esq3.
    + exists []. rewrite app_nil_r. split_and!; [done|done|].
      unfold letter_at, entry. simpl. by rewrite Esq3.
Qed.

Lemma entry_drop {A} (m : list (list A)) (n j i : nat) :
  entry (drop n m) j i = entry m (n + j) i.
Proof. unfold entry. by rewrite lookup_drop. Qed.

(** What [find_cross_word] reads in a column that has no letter in the
    first row. *)
Lemma find_cross_word_column (board : board_t) (i j : nat) :
  Forall (fun row => i < length row) board →
  1 ≤ j < length board →
  letter_at board 0 i = false →
  ∃ j2 above here below,
    find_cross_word board i j = Ok (j2, above ++ here :: below) ∧
    1 ≤ j2 ∧ j2 + length above = j ∧
    here = match entry board j i with
           | Some (Str c) => if in_LETTERS c then c else "."%char
           | _ => "."%char
           end ∧
    (∀ k c, above !! k = Some c →
            entry board (j2 + k) i = Some (Str c) ∧ in_LETTERS c = true) ∧
    (∀ k c, below !! k = Some c →
            entry board (j + 1 + k) i = Some (Str c) ∧ in_LETTERS c = true) ∧
    letter_at board (j2 - 1) i = false ∧
    letter_at board (j + 1 + length below) i = false.
Proof.
  intros Hcol Hj Htop. unfold find_cross_word.
  destruct (column_entry board i j Hcol) as [sq Esq]; [lia|].
  rewrite (proj2 (get2_Ok _ _ _ _) Esq), Ok_bind.
  set (here := match entry board j i with
               | Some (Str c) => if in_LETTERS c then c else "."%char
               | _ => "."%char
               end).
  assert (match sq with
          | Str c => if is_letter sq then [c] else s "."
          | _ => s "."
          end = [here]) as ->.
  { unfold here. rewrite Esq. destruct sq as [c| |a]; [|done..]. simpl.
    by destruct (in_LETTERS c). }
  destruct (cross_up_reads board i j [here] Hcol ltac:(lia) Htop)
    as (j2 & above & -> & Hj2 & Hlen & Habove & Hup).
  rewrite Ok_bind.
  destruct (cross_down_reads (drop (j + 1) board) i (above ++ [here]))
    as (below & -> & Hbelow & Hdown).
  { by apply Forall_drop. }
  rewrite Ok_bind. exists j2, above, here, below. rewrite <- app_assoc.
  split_and!; [done..| |done|].
  - intros k c Hk. rewrite <- entry_drop. by apply Hbelow.
  - unfold letter_at in *. by rewrite <- entry_drop.
Qed.

(** X11: on a board whose rows all have a column [i] and whose first row
    has no letter in it, [find_cross_word(board, i, j)] returns, for a row
    [j] below the first. It returns the row [j2] and the word [w] made of
    the letters that column [i] holds from row [j2] down to row [j - 1],
    of the letter of the square itself, or ['.'] when it holds none, and of
    the letters that the column holds from row [j + 1] on; the squares
    above and below these hold no letter. *)
Theorem find_cross_word_reads_column (board : board_t) (i j : nat) :
  Forall (fun row => i < length row) board →
  1 ≤ j < length board →
  letter_at board 0 i = false →
  ∃ j2 above here below,
    find_cross_word board i j = Ok (j2, above ++ here :: below) ∧
    1 ≤ j2 ∧ j2 + length above = j ∧
    here = match entry board j i with
           | Some (Str c) => if in_LETTERS c then c else "."%char
           | _ => "."%char
           end ∧
    (∀ k c, above !! k = Some c →
            entry board (j2 + k) i = Some (Str c) ∧ in_LETTERS c = true) ∧
    (∀ k c, below !! k = Some c →
            entry board (j + 1 + k) i = Some (Str c) ∧ in_LETTERS c = true) ∧
    letter_at board (j2 - 1) i = false ∧
    letter_at board (j + 1 + length below) i = false.
Proof. apply find_cross_word_column. Qed.

Lemma find_cross_word_reads_column_witness :
  ∃ j2 above here below,
    find_cross_word board_T 2 2 = Ok (j2, above ++ here :: below) ∧
    1 ≤ j2 ∧ j2 + length above = 2 ∧
    here = match entry board_T 2 2 with
           | Some (Str c) => if in_LETTERS c then c else "."%char
           | _ => "."%char
           end ∧
    (∀ k c, above !! k = Some c →
            entry board_T (j2 + k) 2 = Some (Str c) ∧ in_LETTERS c = true) ∧
    (∀ k c, below !! k = Some c →
            entry board_T (2 + 1 + k) 2 = Some (Str c) ∧ in_LETTERS c = true) ∧
    letter_at board_T (j2 - 1) 2 = false ∧
    letter_at board_T (2 + 1 + length below) 2 = false.
Proof.
  apply (find_cross_word_reads_column board_T 2 2).
  - repeat constructor.
  - simpl. lia.
  - reflexivity.
Defined.

Lemma cross_up_top (board : board_t) (i j : nat) (w w' : str) (j2 : option nat) :
  1 ≤ j → (∀ k, k < j → letter_at board k i = true) →
  cross_up board i j w = Ok (j2, w') →
  j2 = Some 1 ∧ length w' = j + length w.
Proof.
  revert w. induction j as [|k IH]; intros w Hj Hletters; [lia|].
  simpl. intros H. apply bind_Ok in H as (sq2 & Esq2 & H). apply get2_Ok in Esq2.
  pose proof (Hletters k ltac:(lia)) as Hk. unfold letter_at in Hk.
  rewrite Esq2 in Hk. rewrite Hk in H.
  destruct sq2 as [c| |a]; [|done..]. destruct k as [|k'].
  - by injection H as <- <-.
  - apply IH in H as [-> ->]; [|lia|intros n ?; apply Hletters; lia].
    split; [done|]. simpl. lia.
Qed.

Lemma cross_down_length (rows : board_t) (i : nat) (w w' : str) :
  cross_down rows i w = Ok w' → length w ≤ length w'.
Proof.
  revert w. induction rows as [|row rows IH]; intros w; simpl.
  - by intros [= <-].
  - intros H. apply bind_Ok in H as (sq3 & _ & H).
    destruct sq3 as [c| |a]; [|by injection H as <-..].
    destruct (is_letter (Str c)); [|by injection H as <-].
    apply IH in H. rewrite length_app in H. simpl in H. lia.
Qed.

(** X12: at the top of the board [find_cross_word] does not give the row
    where the word starts. For the first row, [j = 0], it returns
    nothing: it raises. When column [i] holds letters in all the rows
    above row [j], the word takes them all, from row 0 on, and yet [j2]
    is 1. *)
Theorem find_cross_word_top_row (board : board_t) (i : nat) :
  (∀ r, find_cross_word board i 0 ≠ Ok r) ∧
  ∀ j j2 w,
    1 ≤ j → (∀ k, k < j → letter_at board k i = true) →
    find_cross_word board i j = Ok (j2, w) →
    j2 = 1 ∧ j + 1 ≤ length w.
Proof.
  split.
  - intros r. unfold find_cross_word. destruct (get2 board 0 i) as [sq|e]; [|done].
    rewrite Ok_bind. simpl.
    by destruct (cross_down _ _ _).
  - intros j j2 w Hj Hletters. unfold find_cross_word. intros H.
    apply bind_Ok in H as (sq & _ & H).
    apply bind_Ok in H as ([o w1] & Hup & H).
    apply bind_Ok in H as (w2 & Hdown & H).
    apply cross_up_top in Hup as [-> Hlen]; [|done..].
    injection H as <- <-. split; [done|].
    apply cross_down_length in Hdown.
    assert (1 ≤ length (match sq with
                        | Str c => if is_letter sq then [c] else s "."
                        | _ => s "."
                        end)).
    { destruct sq as [c| |a]; [|simpl; lia..]. destruct (is_letter (Str c)); simpl; lia. }
    lia.
Qed.

Lemma find_cross_word_top_row_witness :
  let board := board_of ["A"; "B"; "."]%string in
  find_cross_word board 0 2 = Ok (1, s "AB.") ∧ 1 = 1 ∧ 2 + 1 ≤ length (s "AB.").
Proof.
  split; [reflexivity|].
  apply (proj2 (find_cross_word_top_row (board_of ["A"; "B"; "."]%string) 0)
           2 1 (s "AB.")).
  - lia.
  - intros [|[|k]] Hk; [reflexivity..|lia].
  - reflexivity.
Defined.

(* ================================================================= *)
(** ** The anchors that [set_anchors] puts in a row *)

Section Anchors.

Variable words4k : str.

(** A letter beside the square [(i, j)]: above, below, right or left of
    it. *)
Lemma set_anchors_square (j i : nat) (b b' : board_t) (sq : square) :
  set_anchors words4k j b = Ok b' →
  1 ≤ j → 1 ≤ i → entry b j i = Some sq → is_Some (entry b j (S i)) →
  ∃ sq', entry b' j i = Some sq' ∧
    if bool_decide (sq = Str "*") ||
       (is_empty sq &&
        (letter_at b (j - 1) i || letter_at b (j + 1) i ||
         letter_at b j (i + 1) || letter_at b j (i - 1)))
    then if letter_at b (j - 1) i || letter_at b (j + 1) i
         then ∃ j2 w, find_cross_word b i j = Ok (j2, w) ∧ sq' = cross_anchor words4k w
         else sq' = ANY
    else sq' = sq.
Proof.
  intros H Hj Hi Hsq [next Hnext].
  unfold set_anchors in H. apply bind_Ok in H as (row & Hrow & H). apply get_Ok in Hrow.
  apply set_anchor_loop in H as (_ & _ & H); [|apply enumerate_NoDup|].
  - destruct (H i sq) as (bi & bi' & Hbi & Hsqi & _ & Hset & Hfin).
    { apply elem_of_enumerate_inner. unfold entry in Hsq, Hnext. rewrite Hrow in *.
      simpl in *. apply lookup_lt_Some in Hnext. split_and!; [done|lia|done]. }
    apply set_anchor_Ok in Hset as (l & Hn & Hset).
    apply neighbors_Ok in Hn as (N & S & E & W & -> & HN & HS & HE & HW); [|done..].
    rewrite <- !(anchors_only_letter_at b bi) by done.
    unfold letter_at. rewrite HN, HS, HE, HW.
    simpl in Hset. rewrite !orb_false_r in Hset.
    replace (is_letter N || (is_letter S || (is_letter E || is_letter W)))
      with (is_letter N || is_letter S || is_letter E || is_letter W) in Hset
      by by rewrite !orb_assoc.
    rewrite Hfin.
    destruct (bool_decide (sq = Str "*")
              || is_empty sq && (is_letter N || is_letter S || is_letter E || is_letter W)).
    + destruct (is_letter N || is_letter S).
      * destruct Hset as (j2 & w & Hw & Hset). eexists. split.
        -- by rewrite (entry_board_set _ _ _ _ _ _ _ Hset), decide_True.
        -- exists j2, w. split; [|done]. by rewrite <- (find_cross_word_anchors_only b bi).
      * eexists. split; [|done].
        by rewrite (entry_board_set _ _ _ _ _ _ _ Hset), decide_True.
    + subst bi'. eauto.
  - intros i' sq0 (_ & _ & Hin)%elem_of_enumerate_inner. unfold entry. by rewrite Hrow.
Qed.

Lemma set_anchors_outside (j j' i' : nat) (b b' : board_t) :
  set_anchors words4k j b = Ok b' →
  j' ≠ j ∨ i' = 0 ∨ entry b j (S i') = None →
  entry b' j' i' = entry b j' i'.
Proof.
  intros H Hout.
  unfold set_anchors in H. apply bind_Ok in H as (row & Hrow & H). apply get_Ok in Hrow.
  apply set_anchor_loop in H as (_ & H & _); [|apply enumerate_NoDup|].
  - apply H. destruct Hout as [?|Hout]; [by left|]. right.
    intros ((i0 & sq0) & -> & Hin)%list_elem_of_fmap.
    apply elem_of_enumerate_inner in Hin as (Hi & Hlt & Hin). simpl in *.
    destruct Hout as [->|Hout]; [lia|].
    unfold entry in Hout. rewrite Hrow in Hout. simpl in Hout.
    apply lookup_ge_None in Hout. lia.
  - intros i0 sq0 (_ & _ & Hin)%elem_of_enumerate_inner. unfold entry. by rewrite Hrow.
Qed.

Lemma set_anchors_anchored_row (j : nat) (b b' : board_t) (row : list square) :
  set_anchors words4k j b = Ok b' → 1 ≤ j → b' !! j = Some row → anchored_row row.
Proof.
  intros H Hj Hrow k sq sq' Hk Hl Hk' Hlen He.
  pose proof (set_anchors_anchors_only _ _ _ _ H) as Hb.
  assert (entry b' j k = Some sq) as Ek by (unfold entry; by rewrite Hrow).
  assert (entry b' j (S k) = Some sq') as Ek' by (unfold entry; by rewrite Hrow).
  destruct (anchors_only_entry_r _ _ _ _ _ Hb Ek') as (sq0 & Esq0 & Hs0).
  assert (is_Some (entry b j (S (S k)))) as Hnext.
  { destruct (lookup_lt_is_Some_2 row (S (S k)) Hlen) as [x Hx].
    assert (entry b' j (S (S k)) = Some x) as Ex by (unfold entry; by rewrite Hrow).
    destruct (anchors_only_entry_r _ _ _ _ _ Hb Ex) as (x0 & -> & _). eauto. }
  destruct (set_anchors_square j (S k) b b' sq0 H Hj ltac:(lia) Esq0 Hnext)
    as (sq1 & Esq1 & Hcase).
  assert (sq1 = sq') as -> by congruence.
  assert (is_empty sq0 = true) as He0 by by rewrite <- (same_or_anchor_empty _ _ Hs0).
  assert (letter_at b j (S k - 1) = true) as Hw.
  { rewrite <- (anchors_only_letter_at b b') by done. unfold letter_at.
    simpl. rewrite Nat.sub_0_r. by rewrite Ek. }
  rewrite He0, Hw, !orb_true_r in Hcase. simpl in Hcase.
  destruct (letter_at b (j - 1) (S k) || letter_at b (j + 1) (S k)).
  - by destruct Hcase as (j2 & w & _ & ->).
  - by subst.
Qed.

(** X16: what [set_anchors(row, j, board)] leaves on the board. A square
    inside row [j] that holds ['*'], or that is empty and has a letter
    above, below, right or left of it, becomes an anchor: the set of the
    letters that make a word of the word that [find_cross_word] reads
    there when the letter is above or below, [ANY] otherwise. Every other
    square of the board is left as it is, so an anchor that a square
    holds already stays. In the row that it leaves, every inner empty
    square that follows a letter is an anchor. *)
Theorem set_anchors_marks (j : nat) (b b' : board_t) :
  set_anchors words4k j b = Ok b' → 1 ≤ j →
  (∀ i sq, 1 ≤ i → entry b j i = Some sq → is_Some (entry b j (S i)) →
     ∃ sq', entry b' j i = Some sq' ∧
       if bool_decide (sq = Str "*") ||
          (is_empty sq &&
           (letter_at b (j - 1) i || letter_at b (j + 1) i ||
            letter_at b j (i + 1) || letter_at b j (i - 1)))
       then if letter_at b (j - 1) i || letter_at b (j + 1) i
            then ∃ j2 w, find_cross_word b i j = Ok (j2, w) ∧
                         sq' = cross_anchor words4k w
            else sq' = ANY
       else sq' = sq) ∧
  (∀ j' i', j' ≠ j ∨ i' = 0 ∨ entry b j (S i') = None →
            entry b' j' i' = entry b j' i') ∧
  (∀ row, b' !! j = Some row → anchored_row row).
Proof.
  intros H Hj. split_and!.
  - intros i sq. by apply (set_anchors_square j i b b').
  - intros j' i'. by apply (set_anchors_outside j j' i' b b').
  - intros row. by apply (set_anchors_anchored_row j b b').
Qed.

End Anchors.

Lemma set_anchors_marks_witness :
  let b := board_T in
  let b' := [[Str "|"; Str "|"; Str "|"; Str "|"; Str "|"];
             [Str "|"; Str "."; Str "A"; Str "."; Str "|"];
             [Str "|"; Str "."; cross_anchor (s "at to") (s "A."); Str "."; Str "|"];
             [Str "|"; Str "|"; Str "|"; Str "|"; Str "|"]] in
  (∀ i sq, 1 ≤ i → entry b 2 i = Some sq → is_Some (entry b 2 (S i)) →
     ∃ sq', entry b' 2 i = Some sq' ∧
       if bool_decide (sq = Str "*") ||
          (is_empty sq &&
           (letter_at b (2 - 1) i || letter_at b (2 + 1) i ||
            letter_at b 2 (i + 1) || letter_at b 2 (i - 1)))
       then if letter_at b (2 - 1) i || letter_at b (2 + 1) i
            then ∃ j2 w, find_cross_word b i 2 = Ok (j2, w) ∧
                         sq' = cross_anchor (s "at to") w
            else sq' = ANY
       else sq' = sq) ∧
  (∀ j' i', j' ≠ 2 ∨ i' = 0 ∨ entry b 2 (S i') = None →
            entry b' j' i' = entry b j' i') ∧
  (∀ row, b' !! 2 = Some row → anchored_row row).
Proof.
  apply (set_anchors_marks (s "at to") 2 board_T).
  - vm_compute. reflexivity.
  - lia.
Defined.

(* ================================================================= *)
(** ** A board with no anchor *)

Lemma for_each_skip {A B} (l : list A) (body : B → A → res B) (acc : B) :
  (∀ x, x ∈ l → body acc x = Ok acc) → for_each l body acc = Ok acc.
Proof.
  induction l as [|x l IH]; intros Hbody; simpl; [done|].
  rewrite (Hbody x) by left. rewrite Ok_bind. apply IH. intros y Hy. apply Hbody. by right.
Qed.


Section Bare.

Variable words4k : str.





End Bare.


(* ================================================================= *)
(** ** What the search returns *)

Section Calls.

Variable words4k : str.







End Calls.






(* ================================================================= *)
(** ** The first play *)


Section First.

Variable words4k : str.
Hypothesis has_word : WORDS words4k ≠ ∅.


End First.



(* ================================================================= *)
(** ** The wildcard *)

(** C4, as the specification states it, fails: the wildcard is bound to no
    letter. [B] is allowed on an empty square, [ANY], and the wildcard
    itself is not; with ["AB"] the one word of the dictionary the tile [B]
    makes ["AB"] with an [A] of the board, for [word_plays] and for
    [find_words], and the tile [_] makes nothing. *)
Lemma wildcard_is_not_bound :
  allows ANY "B" = true ∧ allows ANY "_" = false ∧
  (word_plays (s "ab") (s "B") (s "A") ∅).1 = Ok {[ s "AB" ]} ∧
  (word_plays (s "ab") (s "_") (s "A") ∅).1 = Ok ∅ ∧
  find_words (s "ab") (s "AB") [] None = Ok (Some {[ s "AB" ]}) ∧
  find_words (s "ab") (s "A_") [] None = Ok (Some ∅).
Proof. split_and!; vm_compute; reflexivity. Qed.

Lemma score_loop_parts cross (board : board_t) (i j di dj : nat)
    (word : str) (n total cross_total mult score : nat) :
  score_loop cross board (i, j) (di, dj) word n total cross_total mult = Ok score →
  ∃ c, crosses_total cross board i j di dj word n = Ok c ∧
       score = cross_total + c
               + mult * word_multiplier board i j di dj word n
                 * (total + letters_total board i j di dj word n).
Proof.
  revert n total cross_total mult.
  induction word as [|L word IH]; intros n total cross_total mult H.
  { simpl in H. injection H as <-. exists 0. split; [done|]. simpl. lia. }
  cbn [score_loop] in H.
  apply bind_Ok in H as (sq & Hsq & H). apply bind_Ok in H as (b & Hb & H).
  apply bind_Ok in H as (points & Hp & H). apply bind_Ok in H as (ct & Hct & H).
  apply get2_Ok in Hsq. apply get2_Ok in Hb.
  destruct (POINTS !! L) as [p|] eqn:EL; [|done]. injection Hp as <-.
  apply IH in H as (rest & Hrest & ->).
  cbn [crosses_total letters_total word_multiplier].
  unfold letter_points, word_bonus_at. rewrite Hsq, Hb, EL, Hrest.
  destruct (is_set sq && negb (bool_decide (sq = ANY)) && negb (dir_eqb (di, dj) DOWN)).
  - apply bind_Ok in Hct as (c & -> & [= <-]). exists (c + rest).
    split; [done|]. lia.
  - injection Hct as <-. exists rest. split; [done|]. lia.
Qed.

Lemma crosses_total_down cross (board : board_t) (i j : nat) (word : str) (n : nat) :
  crosses_total cross board i j 0 1 word n = Ok 0.
Proof.
  revert n. induction word as [|L word IH]; intros n; [done|].
  cbn [crosses_total]. rewrite IH.
  change (dir_eqb (0, 1) DOWN) with true. cbn [negb].
  destruct (entry board _ _); [|done]. by rewrite andb_false_r.
Qed.

Lemma filter_submseteq {A} (P : A → Prop) `{∀ x, Decision (P x)} (l k : list A) :
  l ⊆+ k → filter P l ⊆+ filter P k.
Proof.
  induction 1 as [|x l k _ IH|x y l|x l k _ IH|l k m _ IH1 _ IH2].
  - done.
  - rewrite !filter_cons. destruct (decide (P x)); [by constructor|done].
  - rewrite !filter_cons. destruct (decide (P x)), (decide (P y)); try done.
    by constructor.
  - rewrite filter_cons. destruct (decide (P x)); [by constructor|done].
  - by etrans.
Qed.

Lemma filter_all {A} (P : A → Prop) `{∀ x, Decision (P x)} (l : list A) :
  Forall P l → filter P l = l.
Proof.
  induction 1 as [|x l Hx _ IH]; [done|]. rewrite filter_cons_True by done.
  by rewrite IH.
Qed.

Lemma submseteq_no_wildcards (w hand : str) :
  "_"%char ∉ w → w ⊆+ hand ↔ w ⊆+ no_wildcards hand.
Proof.
  intros Hw. unfold no_wildcards. split.
  - intros H. apply (filter_submseteq (fun L => L ≠ "_"%char)) in H.
    rewrite filter_all in H; [done|].
    apply Forall_forall. intros c Hc ->. by apply Hw.
  - intros H. etrans; [exact H|]. apply sublist_submseteq, sublist_filter.
Qed.

Section Wildcard.

Variable words4k : str.
Hypothesis no_wildcard : ∀ w, w ∈ WORDS words4k → "_"%char ∉ w.

Lemma find_words_no_wildcards (letters : str) :
  find_words words4k letters [] None = find_words words4k (no_wildcards letters) [] None.
Proof using no_wildcard.
  unfold find_words. simpl.
  destruct (find_words_from_spec words4k (length letters) letters [] ∅)
    as (r & -> & Hr); [done|].
  destruct (find_words_from_spec words4k (length (no_wildcards letters))
              (no_wildcards letters) [] ∅) as (r' & -> & Hr'); [done|].
  rewrite !Ok_bind. replace r' with r; [done|]. apply set_eq. intros w.
  rewrite Hr, Hr'. apply or_iff_compat_l. split.
  - intros (q & -> & Hq & Hin). exists q. split_and!; [done| |done].
    by apply (proj1 (submseteq_no_wildcards q letters (no_wildcard _ Hin))).
  - intros (q & -> & Hq & Hin). exists q. split_and!; [done| |done].
    by apply (proj2 (submseteq_no_wildcards q letters (no_wildcard _ Hin))).
Qed.

Lemma word_plays_no_wildcards (hand board_letters : str) :
  (word_plays words4k hand board_letters ∅).1
  = (word_plays words4k (no_wildcards hand) board_letters ∅).1.
Proof using no_wildcard.
  destruct (word_plays_fresh words4k hand board_letters ∅)
    as (words & c & -> & Hw); [apply lookup_empty|].
  destruct (word_plays_fresh words4k (no_wildcards hand) board_letters ∅)
    as (words' & c' & -> & Hw'); [apply lookup_empty|].
  simpl. f_equal. apply set_eq. intros w. rewrite Hw, Hw'.
  assert (∀ P Q R : Prop, (P → (Q ↔ R)) → (P ∧ Q ↔ P ∧ R)) as Hand by tauto.
  apply Hand. clear Hand. intros Hin. pose proof (no_wildcard w Hin) as Hno.
  split.
  - intros (prefix & L & suffix & -> & HL & Hsub). exists prefix, L, suffix.
    split_and!; [done..|].
    refine (proj1 (submseteq_no_wildcards (prefix ++ suffix) hand _) Hsub).
    intros [?|?]%elem_of_app; apply Hno; set_solver.
  - intros (prefix & L & suffix & -> & HL & Hsub). exists prefix, L, suffix.
    split_and!; [done..|].
    refine (proj2 (submseteq_no_wildcards (prefix ++ suffix) hand _) Hsub).
    intros [?|?]%elem_of_app; apply Hno; set_solver.
Qed.

End Wildcard.

(** C4, amended: a wildcard stands in for no letter, and adds 0 to the
    score of a word. No set of letters that the program puts on a square,
    [ANY] or a set that [set_anchors] makes, has the character ['_'], and a
    tile is used as the character that it is: with a dictionary whose
    words have no ['_'], [find_words] and [word_plays] find for a hand what
    they find for the hand without its wildcards, all of it words of the
    dictionary as they are spelled, with the letters of the hand. ['_'] has 0 points: the score of a
    word is the total of its cross words plus the product of its word
    bonuses and of the total of its letters, to which a ['_'] adds 0 on
    whatever square it goes, and the score of a cross word is such a
    product. *)
Theorem wildcard_stands_for_no_letter (words4k : str) :
  (∀ w, w ∈ WORDS words4k → "_"%char ∉ w) →
  (allows ANY "_" = false ∧ ∀ w, allows (cross_anchor words4k w) "_" = false) ∧
  (∀ letters,
     find_words words4k letters [] None
     = find_words words4k (no_wildcards letters) [] None) ∧
  (∀ hand board_letters,
     (word_plays words4k hand board_letters ∅).1
     = (word_plays words4k (no_wildcards hand) board_letters ∅).1) ∧
  (∀ letters found w,
     find_words words4k letters [] None = Ok (Some found) → w ∈ found →
     w ∈ WORDS words4k ∧ w ⊆+ no_wildcards letters) ∧
  (∀ hand board_letters words w,
     (word_plays words4k hand board_letters ∅).1 = Ok words → w ∈ words →
     w ∈ WORDS words4k) ∧
  POINTS !! "_"%char = Some 0 ∧
  (∀ board i j, letter_points board i j "_" = 0) ∧
  (∀ board i j di dj hand word score,
     calculate_score board (i, j) (di, dj) hand word = Ok score →
     ∃ c, crosses_total cross_word_score board i j di dj word 0 = Ok c ∧
          score = c + word_multiplier board i j di dj word 0
                      * letters_total board i j di dj word 0) ∧
  (∀ board L i j d score,
     cross_word_score board L (i, j) d = Ok score →
     ∃ j2 w, find_cross_word board i j = Ok (j2, w) ∧
             score = word_multiplier board i j2 0 1 (replace_dot L w) 0
                     * letters_total board i j2 0 1 (replace_dot L w) 0).
Proof.
  intros Hno. split_and!.
  - done.
  - intros w. unfold cross_anchor. simpl. apply bool_decide_eq_false.
    intros H%elem_of_list_to_set%list_elem_of_filter. destruct H as [_ H].
    by vm_compute in H; set_solver.
  - by apply find_words_no_wildcards.
  - by apply word_plays_no_wildcards.
  - intros letters found w H Hw. unfold find_words in H. simpl in H.
    destruct (find_words_from_spec words4k (length letters) letters [] ∅)
      as (r & Hr & Hspec); [done|].
    rewrite Hr, Ok_bind in H. destruct (in_PREFIXES words4k []); [|done].
    injection H as <-. apply Hspec in Hw as [Hw|(q & -> & Hq & Hin)]; [set_solver|].
    split; [done|]. refine (proj1 (submseteq_no_wildcards q letters _) Hq).
    by apply Hno.
  - intros hand board_letters words w H Hw.
    destruct (word_plays_fresh words4k hand board_letters ∅)
      as (words' & c & E & Hspec); [apply lookup_empty|].
    rewrite E in H. simpl in H. injection H as <-. by apply Hspec in Hw as [Hw _].
  - done.
  - intros board i j. unfold letter_points.
    by destruct (entry board j i), (entry BONUS j i).
  - intros board i j di dj hand word score H.
    apply score_loop_parts in H as (c & Hc & ->). exists c. split; [done|]. lia.
  - intros board L i j d score H. unfold cross_word_score in H.
    apply bind_Ok in H as ([j2 w] & Hw & H). exists j2, w. split; [done|].
    apply score_loop_parts in H as (c & Hc & ->).
    rewrite crosses_total_down in Hc. injection Hc as <-. lia.
Qed.

Lemma wildcard_stands_for_no_letter_witness :
  find_words (s "ab") (s "_B_A") [] None = find_words (s "ab") (s "BA") [] None ∧
  letter_points start_board 1 1 "_" = 0.
Proof.
  destruct (wildcard_stands_for_no_letter (s "ab")) as (_ & Hf & _ & _ & _ & _ & Hp & _).
  - intros w Hw. apply (bool_decide_unpack _). revert w Hw.
    apply (set_Forall_elements _ _). vm_compute. repeat constructor.
  - split; [exact (Hf (s "_B_A"))|exact (Hp start_board 1 1)].
Defined.

(* ================================================================= *)
(** ** The prefix before an anchor *)

Lemma get_z_nat {A} (l : list A) (k : nat) : get_z l (Z.of_nat k) = get l k.
Proof. unfold get_z. rewrite decide_True by lia. by rewrite Nat2Z.id. Qed.

(** [row[-len(row) - 1]] raises, whatever the row: where [back_while]
    stops for want of an element. *)
Lemma get_z_below {A} (l : list A) :
  get_z l (- Z.of_nat (length l) - 1) = Raise IndexError.
Proof. unfold get_z. rewrite decide_False by lia. by rewrite decide_False by lia. Qed.

(** The loop stops at the first square, going back, that the test does
    not hold of. *)
Lemma back_while_run (test : square → bool) (row : list square) (stop : square)
    (k n : nat) :
  row !! k = Some stop → test stop = false →
  (∀ t, t < n → ∃ sq, row !! (k + 1 + t) = Some sq ∧ test sq = true) →
  back_while test row (k + 1 + n + length row) = Ok (Z.of_nat (k + 1)).
Proof.
  intros Hstop Htest. induction n as [|n IH]; intros Hrun.
  - replace (k + 1 + 0 + length row) with (S (k + length row)) by lia.
    cbn [back_while].
    replace (Z.of_nat (S (k + length row)) - Z.of_nat (length row) - 1)%Z
      with (Z.of_nat k) by lia.
    rewrite get_z_nat, (proj2 (get_Ok _ _ _) Hstop), Ok_bind, Htest.
    f_equal. lia.
  - replace (k + 1 + S n + length row) with (S (k + 1 + n + length row)) by lia.
    cbn [back_while].
    replace (Z.of_nat (S (k + 1 + n + length row)) - Z.of_nat (length row) - 1)%Z
      with (Z.of_nat (k + 1 + n)) by lia.
    destruct (Hrun n) as (sq & Hsq & Hsqt); [lia|].
    rewrite get_z_nat, (proj2 (get_Ok _ _ _) Hsq), Ok_bind, Hsqt.
    apply IH. intros t Ht. apply Hrun. lia.
Qed.

Lemma join_letters (w acc : str) :
  for_each (map Str w)
    (fun acc sq => match sq with Str c => Ok (acc ++ [c]) | _ => Raise TypeError end) acc
  = Ok (acc ++ w).
Proof.
  revert acc. induction w as [|c w IH]; intros acc; simpl.
  - by rewrite app_nil_r.
  - rewrite IH. by rewrite <- app_assoc.
Qed.

Lemma run_lookup {A} (before rest run : list A) (stop : A) (t : nat) :
  (before ++ stop :: run ++ rest) !! (length before + 1 + t) = (run ++ rest) !! t.
Proof.
  rewrite lookup_app_r by lia.
  by replace (length before + 1 + t - length before) with (S t) by lia.
Qed.

Lemma slice_run {A} (before run rest : list A) (stop : A) :
  drop (length before + 1)
    (take (length before + 1 + length run) (before ++ stop :: run ++ rest)) = run.
Proof.
  replace (before ++ stop :: run ++ rest) with ((before ++ [stop]) ++ run ++ rest)
    by by rewrite <- app_assoc.
  rewrite (take_app_add' (before ++ [stop])) by (rewrite length_app; simpl; lia).
  rewrite take_app_length.
  apply drop_app_length'. rewrite length_app. simpl. lia.
Qed.

Lemma legal_prefix_letters (before rest : list square) (stop : square) (w : str) :
  w ≠ [] → Forall (fun c => in_LETTERS c = true) w → is_letter stop = false →
  legal_prefix (length before + 1 + length w) (before ++ stop :: map Str w ++ rest)
  = Ok (w, Z.of_nat (length w)).
Proof.
  intros Hne Hw Hstop. unfold legal_prefix.
  set (row := before ++ stop :: map Str w ++ rest).
  assert (row !! length before = Some stop) as Hk.
  { unfold row. by rewrite lookup_app_r, Nat.sub_diag by lia. }
  rewrite (back_while_run is_letter row stop (length before) (length w)); [|done..|].
  2:{ intros t Ht. unfold row. rewrite run_lookup, lookup_app_l
        by (by rewrite length_map).
      destruct (lookup_lt_is_Some_2 w t Ht) as [c Hc].
      exists (Str c). rewrite list_lookup_fmap, Hc. split; [done|].
      by apply (proj1 (Forall_lookup _ _) Hw t c). }
  rewrite Ok_bind. destruct w as [|c0 w0]; [done|].
  rewrite decide_True by (simpl; lia).
  assert (slice_z row (Z.of_nat (length before + 1))
            (length before + 1 + length (c0 :: w0)) = map Str (c0 :: w0)) as ->.
  { unfold slice_z. rewrite decide_True by lia. rewrite Nat2Z.id. unfold row.
    rewrite <- (length_map Str (c0 :: w0)). apply slice_run. }
  unfold join. rewrite join_letters, Ok_bind. simpl. f_equal. f_equal. lia.
Qed.

Lemma legal_prefix_empties (before rest empties : list square) (stop : square) :
  Forall (fun sq => is_empty sq && negb (is_set sq) = true) empties →
  is_empty stop && negb (is_set stop) = false →
  (empties = [] → is_letter stop = false) →
  legal_prefix (length before + 1 + length empties) (before ++ stop :: empties ++ rest)
  = Ok ([], Z.of_nat (length empties)).
Proof.
  intros He Hstop Hlast. unfold legal_prefix.
  set (row := before ++ stop :: empties ++ rest).
  set (i := length before + 1 + length empties).
  assert (row !! length before = Some stop) as Hk.
  { unfold row. by rewrite lookup_app_r, Nat.sub_diag by lia. }
  assert (∃ sq, row !! (i - 1) = Some sq ∧ is_letter sq = false) as (sq & Hsq & Hl).
  { destruct empties as [|e empties _] using rev_ind.
    - exists stop. unfold i. simpl. rewrite Nat.add_0_r, Nat.add_sub.
      split; [done|by apply Hlast].
    - exists e. unfold i, row. rewrite length_app. simpl.
      replace (length before + 1 + (length empties + 1) - 1)
        with (length before + 1 + length empties) by lia.
      rewrite run_lookup, <- app_assoc, lookup_app_r, Nat.sub_diag by lia.
      split; [done|]. apply Forall_app in He as [_ He].
      apply Forall_singleton, andb_true_iff in He as [He _].
      destruct (is_letter e) eqn:El; [|done].
      apply is_letter_not_empty in El. congruence. }
  replace (i + length row) with ((i - 1) + 1 + 0 + length row) by (unfold i; lia).
  rewrite (back_while_run is_letter row sq (i - 1) 0); [|done..|intros t Ht; lia].
  rewrite Ok_bind, decide_False by (unfold i; lia).
  replace (Z.to_nat (Z.of_nat (i - 1 + 1) + Z.of_nat (length row)))
    with (length before + 1 + length empties + length row) by (unfold i; lia).
  rewrite (back_while_run _ row stop (length before) (length empties)); [|done..|].
  2:{ intros t Ht. unfold row. rewrite run_lookup, lookup_app_l by done.
      destruct (lookup_lt_is_Some_2 empties t Ht) as [e Hlook].
      exists e. split; [done|]. by apply (proj1 (Forall_lookup _ _) He t e). }
  rewrite Ok_bind. f_equal. f_equal. unfold i. lia.
Qed.

(** X26: what [legal_prefix(i, row)] returns for an anchor [row[i]], read
    off the squares before it. When letters come just before the anchor,
    after a square that holds no letter, it returns them and their number.
    When the square before the anchor holds no letter, it returns ['']
    and the number of the empty squares with no set on them that come just
    before the anchor, after a square that is not empty or holds a set. The
    row of a board starts with a square of the border, which stops both
    loops. A row that starts with a letter does not stop them: the loops
    go on from the end of the row, with [row[-1]], and raise [IndexError]
    when every square of the row holds a letter. *)
Theorem legal_prefix_reads_back (before rest : list square) (stop : square) :
  (∀ w, w ≠ [] → Forall (fun c => in_LETTERS c = true) w → is_letter stop = false →
        legal_prefix (length before + 1 + length w) (before ++ stop :: map Str w ++ rest)
        = Ok (w, Z.of_nat (length w))) ∧
  (∀ empties,
     Forall (fun sq => is_empty sq && negb (is_set sq) = true) empties →
     is_empty stop && negb (is_set stop) = false →
     (empties = [] → is_letter stop = false) →
     legal_prefix (length before + 1 + length empties) (before ++ stop :: empties ++ rest)
     = Ok ([], Z.of_nat (length empties))) ∧
  legal_prefix 1 [Str "A"; ANY; Str "Z"] = Ok ([], 2%Z) ∧
  legal_prefix 1 [Str "A"; Str "B"] = Raise IndexError.
Proof.
  split_and!; [| |done..].
  - intros w. apply legal_prefix_letters.
  - intros empties. apply legal_prefix_empties.
Qed.

Lemma legal_prefix_reads_back_witness :
  legal_prefix 2 [Str "|"; Str "A"; ANY; Str "|"] = Ok (s "A", 1%Z) ∧
  legal_prefix 3 [Str "|"; Str "."; Str "."; ANY; Str "|"] = Ok ([], 2%Z).
Proof.
  destruct (legal_prefix_reads_back [] [ANY; Str "|"] (Str "|")) as (Hl & He & _).
  split.
  - apply (Hl (s "A")); [done|by repeat constructor|done].
  - apply (He [Str "."; Str "."]); [by repeat constructor|done|done].
Defined.

(* ================================================================= *)
(** ** An anchor after letters *)

Lemma for_each_first_raise {A B} (l : list A) (body : B → A → res B) (acc : B)
    (p : nat) (x : A) (e : exn) :
  l !! p = Some x →
  (∀ q y, q < p → l !! q = Some y → body acc y = Ok acc) →
  body acc x = Raise e →
  for_each l body acc = Raise e.
Proof.
  intros Hx Hskip Hraise. rewrite <- (take_drop_middle l p x Hx), for_each_app.
  rewrite for_each_skip.
  - simpl. by rewrite Hraise.
  - intros y Hy. apply list_elem_of_lookup in Hy as [q Hq].
    apply lookup_take_Some in Hq as [Hq Hlt]. by apply (Hskip q).
Qed.

Lemma lookup_enumerate {A} (l : list A) (start p : nat) :
  enumerate l start !! p = (fun x => (start + p, x)) <$> l !! p.
Proof.
  revert start p. induction l as [|y l IH]; intros start [|p]; simpl; [done..| |].
  - by rewrite Nat.add_0_r.
  - rewrite IH. by replace (S start + p) with (start + S p) by lia.
Qed.

Section Raises.

Variable words4k : str.

Lemma row_plays_after_letters (hand : str) (cache : cache_t)
    (before rest : list square) (stop anchor : square) (w : str) :
  w ≠ [] → Forall (fun c => in_LETTERS c = true) w →
  is_letter stop = false → is_set stop = false →
  Forall (fun sq => is_set sq = false) before →
  is_set anchor = true → rest ≠ [] →
  row_plays words4k hand (before ++ stop :: map Str w ++ anchor :: rest) cache
  = Raise TypeError.
Proof.
  intros Hne Hw Hstop Hstop' Hbefore Hanchor Hrest. unfold row_plays.
  set (row := before ++ stop :: map Str w ++ anchor :: rest).
  set (i := length before + 1 + length w).
  assert (length row = i + 1 + length rest) as Hlen.
  { unfold row, i. rewrite length_app. simpl. rewrite length_app, length_map. simpl. lia. }
  assert (0 < length rest) as Hrest'. { destruct rest; [done|simpl; lia]. }
  assert (row !! i = Some anchor) as Hi.
  { unfold row, i. rewrite run_lookup, lookup_app_r by (by rewrite length_map).
    by rewrite length_map, Nat.sub_diag. }
  assert (∀ k sq, k < i → row !! k = Some sq → is_set sq = false) as Hpre.
  { intros k sq Hk. unfold row. destruct (decide (k < length before)) as [Hlt|Hge].
    - rewrite lookup_app_l by done. intros Hsq.
      by apply (proj1 (Forall_lookup _ _) Hbefore k sq).
    - rewrite lookup_app_r by lia.
      destruct (k - length before) as [|t] eqn:Et; simpl; [congruence|].
      rewrite lookup_app_l by (rewrite length_map; unfold i in Hk; lia).
      rewrite list_lookup_fmap. by destruct (w !! t); intros [= <-]. }
  apply (for_each_first_raise _ _ _ (i - 1) (i, anchor)).
  - rewrite lookup_enumerate, lookup_inner, decide_True by (unfold i in *; lia).
    replace (S (i - 1)) with i by (unfold i; lia). rewrite Hi. simpl.
    do 2 f_equal. unfold i. lia.
  - intros q [k sq] Hq. rewrite lookup_enumerate, lookup_inner. case_decide; [|done].
    destruct (row !! S q) as [sq'|] eqn:Esq; [|done]. intros [= <- <-].
    unfold row_play. by rewrite (Hpre (S q) sq') by (done || lia).
  - unfold row_play. rewrite Hanchor. unfold row, i.
    rewrite legal_prefix_letters, Ok_bind by done.
    by destruct w.
Qed.

End Raises.

(** X27: [row_plays] raises [TypeError] on a row whose first anchor comes
    just after letters, whatever the hand, the dictionary and the cache:
    the search has a prefix on the board there, and calls [add_suffixes]
    with six arguments. The letters come after a square that holds no
    letter; the anchor is not the last square of the row. *)
Theorem row_plays_after_letters_raises (words4k hand : str) (cache : cache_t)
    (before rest : list square) (stop anchor : square) (w : str) :
  w ≠ [] → Forall (fun c => in_LETTERS c = true) w →
  is_letter stop = false → is_set stop = false →
  Forall (fun sq => is_set sq = false) before →
  is_set anchor = true → rest ≠ [] →
  row_plays words4k hand (before ++ stop :: map Str w ++ anchor :: rest) cache
  = Raise TypeError.
Proof. apply row_plays_after_letters. Qed.

Lemma row_plays_after_letters_raises_witness :
  row_plays (s "cab") (s "B") [Str "|"; Str "."; Str "C"; Str "A"; ANY; Str "."; Str "|"] ∅
  = Raise TypeError.
Proof.
  apply (row_plays_after_letters_raises (s "cab") (s "B") ∅
           [Str "|"] [Str "."; Str "|"] (Str ".") ANY (s "CA")); try done.
  - by repeat constructor.
  - by repeat constructor.
Defined.

(* ================================================================= *)
(** ** What [show] prints *)

Lemma show_row_same_letters (row_index : nat) (row row' : list square) :
  Forall2 same_or_anchor row row' → show_row row_index row' = show_row row_index row.
Proof.
  intros Hrows. unfold show_row.
  set (body := fun (squares : str) (pat : nat * square) =>
         let '(col_index, sq) := pat in
         match sq with
         | Str c =>
             if is_letter sq then Ok (squares ++ [c])
             else b ← get2 BONUS row_index col_index; Ok (squares ++ [b])
         | _ => b ← get2 BONUS row_index col_index; Ok (squares ++ [b])
         end).
  assert (∀ start squares,
            for_each (enumerate row' start) body squares =
            for_each (enumerate row start) body squares) as ->; [|done].
  induction Hrows as [|sq sq' row row' Hs _ IH]; intros start squares;
    cbn [enumerate for_each]; [done|].
  assert (body squares (start, sq') = body squares (start, sq)) as ->.
  { unfold body. apply same_or_anchor_cases in Hs as [[_ ->]|[Hl Hl']]; [done|].
    destruct sq as [c| |a], sq' as [c'| |a']; by rewrite ?Hl, ?Hl'. }
  destruct (body squares (start, sq)) as [squares'|e]; [|done].
  rewrite !Ok_bind. apply IH.
Qed.

Lemma show_rows_same_letters (b b' : board_t) (start : nat) :
  anchors_only b b' → show_rows (enumerate b' start) = show_rows (enumerate b start).
Proof.
  intros Hb. revert start.
  induction Hb as [|row row' b b' Hrows _ IH]; intros start; simpl; [done|].
  by rewrite (show_row_same_letters start row row'), IH.
Qed.

(** X24: the anchors that [set_anchors] puts on the board do not show:
    after [set_anchors(row, j, board)], [show(board)] prints what it
    printed before, and it stops with an exception just when it did
    before. *)
Theorem show_after_set_anchors (words4k : str) (j : nat) (board board' : board_t) :
  set_anchors words4k j board = Ok board' →
  show board' = show board.
Proof.
  intros H. unfold show. apply show_rows_same_letters.
  by eapply set_anchors_anchors_only.
Qed.

Lemma show_after_set_anchors_witness :
  show center_board = show start_board.
Proof.
  apply (show_after_set_anchors (s "cab") 8 start_board center_board).
  vm_compute. reflexivity.
Defined.

(* ================================================================= *)
(** ** A row that [set_anchors] sees again *)

Lemma neighbors_entries (b : board_t) (i j : nat) (N S0 E W : square) :
  1 ≤ j → 1 ≤ i →
  entry b (j - 1) i = Some N → entry b (j + 1) i = Some S0 →
  entry b j (i + 1) = Some E → entry b j (i - 1) = Some W →
  neighbors b i j = Ok [N; S0; E; W].
Proof.
  intros Hj Hi HN HS HE HW. unfold neighbors.
  destruct j as [|j']; [lia|]. destruct i as [|i']; [lia|]. cbn [get_pred].
  replace (S j' - 1) with j' in HN by lia. replace (S i' - 1) with i' in HW by lia.
  unfold entry in HN, HS, HE, HW.
  destruct (b !! j') as [rowN|] eqn:EN; [|done].
  change (rowN !! S i' = Some N) in HN.
  destruct (b !! (S j' + 1)) as [rowS|] eqn:ES; [|done].
  change (rowS !! S i' = Some S0) in HS.
  destruct (b !! S j') as [row|] eqn:Erow; [|done].
  change (row !! (S i' + 1) = Some E) in HE. change (row !! i' = Some W) in HW.
  rewrite (proj2 (get_Ok _ _ _) EN), Ok_bind, (proj2 (get_Ok _ _ _) HN), Ok_bind.
  rewrite (proj2 (get_Ok _ _ _) ES), Ok_bind, (proj2 (get_Ok _ _ _) HS), Ok_bind.
  rewrite (proj2 (get_Ok _ _ _) Erow), Ok_bind, (proj2 (get_Ok _ _ _) HE), Ok_bind.
  by rewrite (proj2 (get_Ok _ _ _) HW), !Ok_bind.
Qed.

Lemma board_set_same (b : board_t) (j i : nat) (row : list square) (sq : square) :
  b !! j = Some row → row !! i = Some sq → board_set b j i sq = Ok b.
Proof.
  intros Hrow Hsq. unfold board_set. rewrite (proj2 (get_Ok _ _ _) Hrow), Ok_bind.
  rewrite decide_True by by eapply lookup_lt_Some.
  by rewrite (list_insert_id row), (list_insert_id b).
Qed.

Section Again.

Variable words4k : str.

Lemma set_anchors_neighbors (j i : nat) (b b1 : board_t) (sq : square) :
  set_anchors words4k j b = Ok b1 →
  1 ≤ j → 1 ≤ i → entry b j i = Some sq → is_Some (entry b j (S i)) →
  is_Some (entry b (j - 1) i) ∧ is_Some (entry b (j + 1) i) ∧
  is_Some (entry b j (i + 1)) ∧ is_Some (entry b j (i - 1)).
Proof.
  intros H Hj Hi Hsq [next Hnext].
  unfold set_anchors in H. apply bind_Ok in H as (row & Hrow & H). apply get_Ok in Hrow.
  apply set_anchor_loop in H as (_ & _ & H); [|apply enumerate_NoDup|].
  - destruct (H i sq) as (bi & bi' & Hbi & Hsqi & _ & Hset & Hfin).
    { apply elem_of_enumerate_inner. unfold entry in Hsq, Hnext. rewrite Hrow in *.
      simpl in *. apply lookup_lt_Some in Hnext. split_and!; [done|lia|done]. }
    apply set_anchor_Ok in Hset as (l & Hn & Hset).
    apply neighbors_Ok in Hn as (N & S & E & W & -> & HN & HS & HE & HW); [|done..].
    destruct (anchors_only_entry_r _ _ _ _ _ Hbi HN) as (? & -> & _).
    destruct (anchors_only_entry_r _ _ _ _ _ Hbi HS) as (? & -> & _).
    destruct (anchors_only_entry_r _ _ _ _ _ Hbi HE) as (? & -> & _).
    destruct (anchors_only_entry_r _ _ _ _ _ Hbi HW) as (? & -> & _).
    eauto.
  - intros i' sq0 (_ & _ & Hin)%elem_of_enumerate_inner. unfold entry. by rewrite Hrow.
Qed.

(** A row that [set_anchors] has seen is left as it is when [set_anchors]
    sees it again, whatever anchors the other rows have got since. *)
Lemma set_anchors_again (j : nat) (b b1 c : board_t) :
  1 ≤ j → set_anchors words4k j b = Ok b1 →
  anchors_only b1 c → c !! j = b1 !! j →
  set_anchors words4k j c = Ok c.
Proof.
  intros Hj Hset Hc Hrowc.
  pose proof (set_anchors_anchors_only _ _ _ _ Hset) as Hb1.
  assert (anchors_only b c) as Hbc by by etrans.
  assert (∃ row0, b !! j = Some row0) as [row0 Hrow0].
  { unfold set_anchors in Hset. apply bind_Ok in Hset as (row & Hrow%get_Ok & _). eauto. }
  destruct (anchors_only_row _ _ _ _ Hb1 Hrow0) as (row1 & Hrow1 & Hrows).
  rewrite Hrow1 in Hrowc.
  unfold set_anchors. rewrite (proj2 (get_Ok _ _ _) Hrowc), Ok_bind.
  apply for_each_skip. intros [i sq] (Hi & Hlen & Hsq)%elem_of_enumerate_inner.
  pose proof (Forall2_length _ _ _ Hrows) as Hlen0.
  destruct (lookup_lt_is_Some_2 row0 i ltac:(lia)) as [sq0 Hsq0].
  destruct (lookup_lt_is_Some_2 row0 (S i) ltac:(lia)) as [next Hnext].
  assert (entry b j i = Some sq0) as Esq0 by (unfold entry; by rewrite Hrow0).
  assert (is_Some (entry b j (S i))) as Enext by (unfold entry; rewrite Hrow0; eauto).
  destruct (set_anchors_square words4k j i b b1 sq0 Hset Hj Hi Esq0 Enext)
    as (sq' & Esq' & Hcase).
  assert (sq' = sq) as ->.
  { unfold entry in Esq'. rewrite Hrow1 in Esq'. simpl in Esq'. congruence. }
  destruct (set_anchors_neighbors j i b b1 sq0 Hset Hj Hi Esq0 Enext)
    as ([N0 HN0] & [S0 HS0] & [E0 HE0] & [W0 HW0]).
  destruct (anchors_only_entry _ _ _ _ _ Hbc HN0) as (N & HN & HsN).
  destruct (anchors_only_entry _ _ _ _ _ Hbc HS0) as (S & HS & HsS).
  destruct (anchors_only_entry _ _ _ _ _ Hbc HE0) as (E & HE & HsE).
  destruct (anchors_only_entry _ _ _ _ _ Hbc HW0) as (W & HW & HsW).
  unfold set_anchor. rewrite (neighbors_entries c i j N S E W) by done.
  rewrite Ok_bind. cbn [existsb take]. rewrite !orb_false_r.
  apply same_or_anchor_letter in HsN, HsS, HsE, HsW.
  unfold letter_at in Hcase. rewrite HN0, HS0, HE0, HW0 in Hcase.
  rewrite HsN, HsS, HsE, HsW.
  replace (is_letter N0 || (is_letter S0 || (is_letter E0 || is_letter W0)))
    with (is_letter N0 || is_letter S0 || is_letter E0 || is_letter W0)
    by by rewrite !orb_assoc.
  destruct (bool_decide (sq0 = Str "*")
            || is_empty sq0 && (is_letter N0 || is_letter S0 || is_letter E0 || is_letter W0))
    eqn:Ecase.
  - destruct (is_letter N0 || is_letter S0) eqn:Evert.
    + destruct Hcase as (j2 & w & Hw & ->). simpl.
      rewrite (find_cross_word_anchors_only b c) by done. rewrite Hw, Ok_bind.
      by apply (board_set_same c j i row1).
    + subst sq. simpl.
      destruct (is_letter E0 || is_letter W0); [|done].
      by apply (board_set_same c j i row1).
  - subst sq. by rewrite Ecase.
Qed.

(** X25: [set_anchors] does nothing to a row that it has seen: called
    again for the row, on the board as it has left it, it returns and
    leaves the board as it is. *)
Theorem set_anchors_idempotent (j : nat) (board board' : board_t) :
  1 ≤ j → set_anchors words4k j board = Ok board' →
  set_anchors words4k j board' = Ok board'.
Proof.
  intros Hj H. eapply set_anchors_again; [done|exact H| |done].
  apply anchors_only_refl.
Qed.

End Again.

Lemma set_anchors_idempotent_witness :
  set_anchors (s "cab") 8 center_board = Ok center_board.
Proof.
  apply (set_anchors_idempotent (s "cab") 8 start_board center_board); [lia|].
  vm_compute. reflexivity.
Defined.

(* ================================================================= *)
(** ** A play that leaves the board *)

Lemma board_set_raises (board : board_t) (j i : nat) (sq : square) :
  entry board j i = None → board_set board j i sq = Raise IndexError.
Proof.
  intros H. unfold board_set, get. unfold entry in H.
  destruct (board !! j) as [row|]; [|done]. simpl in H. rewrite Ok_bind.
  apply lookup_ge_None in H. rewrite decide_False; [done|lia].
Qed.

Lemma make_play_loop_raises (word : str) (i j di dj k : nat) (board : board_t) :
  (di, dj) ≠ (0, 0) → k < length word →
  (∀ k', k' < k → is_Some (entry board (j + k' * dj) (i + k' * di))) →
  entry board (j + k * dj) (i + k * di) = None →
  (make_play_loop word i j di dj board).2 = Some IndexError ∧
  (∀ k' L, k' < k → word !! k' = Some L →
     entry (make_play_loop word i j di dj board).1 (j + k' * dj) (i + k' * di)
     = Some (Str L)) ∧
  entry (make_play_loop word i j di dj board).1 (j + k * dj) (i + k * di) = None.
Proof.
  intros Hmove. revert i j k board.
  induction word as [|letter word IH]; intros i j k board Hk Hon Hoff; simpl in Hk; [lia|].
  simpl. destruct k as [|k].
  - rewrite Nat.add_0_r in Hoff. simpl in Hoff. rewrite Nat.add_0_r in Hoff.
    rewrite (board_set_raises board j i) by done. simpl. split_and!; [done| |].
    + intros k' L Hk'. lia.
    + by rewrite !Nat.add_0_r.
  - destruct (board_set_returns board j i (Str letter)) as [board' Hset].
    { specialize (Hon 0 ltac:(lia)). by rewrite !Nat.add_0_r in Hon. }
    rewrite Hset.
    assert (∀ n, 0 < n → entry board' (j + n * dj) (i + n * di)
                         = entry board (j + n * dj) (i + n * di)) as Hother.
    { intros n Hn. rewrite (entry_board_set _ _ _ _ _ _ _ Hset).
      destruct (decide _) as [Heq|]; [|done]. exfalso. apply Hmove.
      injection Heq as Hj Hi. f_equal; nia. }
    destruct (IH (i + di) (j + dj) k board') as (Hraise & Hword & Hnone); [lia| | |].
    { intros k' Hk'. replace (j + dj + k' * dj) with (j + S k' * dj) by lia.
      replace (i + di + k' * di) with (i + S k' * di) by lia.
      rewrite Hother by lia. apply Hon. lia. }
    { replace (j + dj + k * dj) with (j + S k * dj) by lia.
      replace (i + di + k * di) with (i + S k * di) by lia.
      by rewrite Hother by lia. }
    split_and!; [done| |].
    + intros [|k'] L Hk' HL; simpl in HL.
      * injection HL as ->.
        replace (j + 0 * dj) with j by lia. replace (i + 0 * di) with i by lia.
        rewrite make_play_loop_frame.
        -- by rewrite (entry_board_set _ _ _ _ _ _ _ Hset), decide_True.
        -- intros n _ Heq. apply Hmove. injection Heq as Hi Hj. f_equal; nia.
      * replace (j + S k' * dj) with (j + dj + k' * dj) by lia.
        replace (i + S k' * di) with (i + di + k' * di) by lia.
        apply Hword; [lia|done].
    + replace (j + S k * dj) with (j + dj + k * dj) by lia.
      by replace (i + S k * di) with (i + di + k * di) by lia.
Qed.

(** X28: [make_play] does not check that the play is on the board before
    it writes. When the square of letter [k] of the word is the first one
    that is not on the board, [make_play] raises [IndexError] there, and
    the letters before letter [k] have been put on the board. *)
Theorem make_play_off_board (score i j di dj k : nat) (word : str) (board : board_t) :
  (di, dj) ≠ (0, 0) → k < length word →
  (∀ k', k' < k → is_Some (entry board (j + k' * dj) (i + k' * di))) →
  entry board (j + k * dj) (i + k * di) = None →
  let made := make_play (score, (i, j), (di, dj), word) board in
  made.2 = Some IndexError ∧
  ∀ k' L, k' < k → word !! k' = Some L →
          entry made.1 (j + k' * dj) (i + k' * di) = Some (Str L).
Proof.
  intros Hmove Hk Hon Hoff.
  destruct (make_play_loop_raises word i j di dj k board Hmove Hk Hon Hoff)
    as (Hraise & Hword & _).
  by split.
Qed.

Lemma make_play_off_board_witness :
  let made := make_play (0, (2, 1), ACROSS, s "ABC") board_A in
  made.2 = Some IndexError ∧
  ∀ k' L, k' < 2 → s "ABC" !! k' = Some L →
          entry made.1 (1 + k' * 0) (2 + k' * 1) = Some (Str L).
Proof.
  apply (make_play_off_board 0 2 1 1 0 2 (s "ABC") board_A).
  - done.
  - simpl. lia.
  - intros [|[|k']] Hk'; [by eexists..|lia].
  - reflexivity.
Defined.

(* ================================================================= *)
(** ** The score of a cross word *)

Lemma letter_has_points (c : ascii) : in_LETTERS c = true → is_Some (POINTS !! c).
Proof.
  intros H. apply bool_decide_eq_true in H. unfold LETTERS in H.
  repeat (apply elem_of_cons in H as [->|H]; [vm_compute; eauto|]).
  by apply elem_of_nil in H.
Qed.

Lemma letter_not_dot (c : ascii) : in_LETTERS c = true → c ≠ "."%char.
Proof. intros H ->. by vm_compute in H. Qed.

Lemma replace_dot_letters (L : ascii) (w : str) :
  Forall (fun c => in_LETTERS c = true) w → replace_dot L w = w.
Proof.
  intros Hw. unfold replace_dot. rewrite <- (map_id w) at 2. apply map_ext_Forall.
  eapply Forall_impl; [exact Hw|]. intros c Hc. simpl.
  destruct (Ascii.eqb_spec c ".") as [->|]; [|done]. by apply letter_not_dot in Hc.
Qed.

Lemma for_each_points (word : str) (total : nat) :
  for_each word
    (fun total letter =>
       match POINTS !! letter with
       | Some points => Ok (total + points)
       | None => Raise KeyError
       end) total
  = (points ← word_score word; Ok (total + points)).
Proof.
  unfold word_score. revert total.
  induction word as [|L word IH]; intros total; cbn [for_each].
  - by rewrite Ok_bind, Nat.add_0_r.
  - destruct (POINTS !! L) as [p|]; [|done]. rewrite !Ok_bind.
    rewrite (IH (total + p)), (IH (0 + p)).
    destruct (for_each word _ 0) as [q|e]; [|done]. rewrite !Ok_bind. f_equal. lia.
Qed.

Lemma word_score_letters (word : str) :
  Forall (fun c => in_LETTERS c = true) word → ∃ points, word_score word = Ok points.
Proof.
  induction 1 as [|c word Hc _ [p IH]]; [by exists 0|].
  destruct (letter_has_points c Hc) as [pc Hpc]. unfold word_score. cbn [for_each].
  rewrite Hpc, Ok_bind, for_each_points, IH. eauto.
Qed.

(** The letters that a word starts with on the board count for their
    points; the loop goes on after them. *)
Lemma score_loop_letters_app cross (board : board_t) (i j di dj : nat)
    (w1 w2 : str) (n total cross_total word_multiplier : nat) :
  (∀ k, k < length w1 →
        ∃ sq b, entry board (j + (n + k) * dj) (i + (n + k) * di) = Some sq ∧
                is_letter sq = true ∧
                entry BONUS (j + (n + k) * dj) (i + (n + k) * di) = Some b) →
  score_loop cross board (i, j) (di, dj) (w1 ++ w2) n total cross_total word_multiplier =
    (total ← for_each w1
       (fun total letter =>
          match POINTS !! letter with
          | Some points => Ok (total + points)
          | None => Raise KeyError
          end) total;
     score_loop cross board (i, j) (di, dj) w2 (n + length w1) total cross_total
       word_multiplier).
Proof.
  revert n total cross_total word_multiplier.
  induction w1 as [|L w1 IH]; intros n total cross_total word_multiplier Hsq.
  { cbn [for_each app length]. by rewrite Ok_bind, Nat.add_0_r. }
  destruct (Hsq 0) as (sq & b & Esq & Hl & Eb); [simpl; lia|].
  rewrite Nat.add_0_r in Esq, Eb.
  cbn [score_loop for_each app].
  apply get2_Ok in Esq. apply get2_Ok in Eb. rewrite Esq, Eb, !Ok_bind.
  unfold word_bonus, letter_bonus. rewrite Hl.
  destruct (POINTS !! L) as [points|]; [|done]. rewrite !Ok_bind.
  assert (is_set sq = false) as ->.
  { destruct (is_set sq) eqn:E; [|done]. apply is_set_not_letter in E. congruence. }
  cbn [andb]. rewrite Ok_bind, !Nat.mul_1_r. rewrite IH.
  - cbn [length]. by replace (S n + length w1) with (n + S (length w1)) by lia.
  - intros k Hk. destruct (Hsq (S k)) as (sq' & b' & ? & ? & ?); [simpl; lia|].
    exists sq', b'. by replace (S n + k) with (n + S k) by lia.
Qed.

(** X29: the score of the cross word of a tile. For a letter [L] put on a
    square [(i, j)] that holds no letter, [cross_word_score] is the sum of
    the points of the letters that the column holds just above and just
    below the square and of the points of [L], these multiplied by the
    letter bonus of the square, all of it multiplied by the word bonus of
    the square: the bonus squares under the letters on the board do not
    count. The column is on the board and on the bonus grid, and has no
    letter in the first row. *)
Theorem cross_word_score_counts (board : board_t) (L : ascii) (i j : nat)
    (d : direction) (sq : square) (b : ascii) (pL : nat) :
  Forall (fun row => i < length row) board →
  1 ≤ j < length board →
  letter_at board 0 i = false →
  entry board j i = Some sq → is_letter sq = false →
  (∀ k, k < length board → is_Some (entry BONUS k i)) →
  entry BONUS j i = Some b →
  POINTS !! L = Some pL →
  ∃ j2 above below pa pb,
    find_cross_word board i j = Ok (j2, above ++ "."%char :: below) ∧
    word_score above = Ok pa ∧ word_score below = Ok pb ∧
    cross_word_score board L (i, j) d
    = Ok (word_bonus sq b * (pa + pL * letter_bonus sq b + pb)).
Proof.
  intros Hcol Hj Htop Esq Hl Hbonus Eb HL.
  destruct (find_cross_word_column board i j Hcol Hj Htop)
    as (j2 & above & here & below & Hw & Hj2 & Hlen & -> & Habove & Hbelow & _ & _).
  rewrite Esq in Hw.
  assert ((match sq with
           | Str c => if in_LETTERS c then c else "."%char
           | _ => "."%char
           end) = "."%char) as Hhere.
  { destruct sq as [c| |a]; [|done..]. simpl in Hl. by rewrite Hl. }
  rewrite Hhere in Hw.
  assert (Forall (fun c => in_LETTERS c = true) above) as Ha.
  { apply Forall_lookup. intros k c Hk. by destruct (Habove k c Hk). }
  assert (Forall (fun c => in_LETTERS c = true) below) as Hb.
  { apply Forall_lookup. intros k c Hk. by destruct (Hbelow k c Hk). }
  destruct (word_score_letters above Ha) as [pa Hpa].
  destruct (word_score_letters below Hb) as [pb Hpb].
  exists j2, above, below, pa, pb. split_and!; [done..|].
  unfold cross_word_score. rewrite Hw, Ok_bind.
  assert (replace_dot L (above ++ "."%char :: below) = above ++ L :: below) as ->.
  { unfold replace_dot. rewrite map_app. simpl.
    fold (replace_dot L above). fold (replace_dot L below).
    by rewrite !replace_dot_letters. }
  unfold score_with, DOWN. rewrite score_loop_letters_app.
  2:{ intros k Hk. destruct (lookup_lt_is_Some_2 above k Hk) as [c Hc].
      destruct (Habove k c Hc) as [Ec Hlc].
      destruct (Hbonus (j2 + k)) as [bk Hbk].
      { apply lookup_lt_Some in Hc. lia. }
      exists (Str c), bk. rewrite Nat.mul_0_r, Nat.mul_1_r, Nat.add_0_r. simpl.
      done. }
  rewrite for_each_points, Hpa, !Ok_bind, !Nat.add_0_l.
  cbn [score_loop].
  replace (j2 + length above * 1) with j by lia.
  replace (i + length above * 0) with i by lia.
  rewrite (proj2 (get2_Ok _ _ _ _) Esq), (proj2 (get2_Ok _ _ _ _) Eb), !Ok_bind.
  rewrite HL, !Ok_bind.
  change (dir_eqb (0, 1) DOWN) with true. rewrite !andb_false_r, Ok_bind.
  rewrite score_loop_letters.
  2:{ intros k Hk. destruct (lookup_lt_is_Some_2 below k Hk) as [c Hc].
      destruct (Hbelow k c Hc) as [Ec Hlc].
      destruct (Hbonus (j + 1 + k)) as [bk Hbk].
      { unfold entry in Ec. destruct (board !! (j + 1 + k)) eqn:E; [|done].
        by apply lookup_lt_Some in E. }
      exists (Str c), bk.
      replace (j2 + (S (length above) + k) * 1) with (j + 1 + k) by lia.
      replace (i + (S (length above) + k) * 0) with i by lia. done. }
  rewrite for_each_points, Hpb, !Ok_bind. f_equal. lia.
Qed.

Lemma cross_word_score_counts_witness :
  let board := board_of ["|||||"; "|..A|"; "|...|"; "|||||"]%string in
  ∃ j2 above below pa pb,
    find_cross_word board 3 2 = Ok (j2, above ++ "."%char :: below) ∧
    word_score above = Ok pa ∧ word_score below = Ok pb ∧
    cross_word_score board "T" (3, 2) DOWN
    = Ok (word_bonus (Str ".") ":" * (pa + 1 * letter_bonus (Str ".") ":" + pb)).
Proof.
  apply (cross_word_score_counts
           (board_of ["|||||"; "|..A|"; "|...|"; "|||||"]%string)
           "T" 3 2 DOWN (Str ".") ":" 1).
  - repeat constructor.
  - simpl. lia.
  - reflexivity.
  - reflexivity.
  - reflexivity.
  - intros [|[|[|[|k]]]] Hk; [by eexists..|simpl in Hk; lia].
  - reflexivity.
  - reflexivity.
Defined.

(* ================================================================= *)
(** ** The letters that an anchor allows *)

